(** * pixels-rag: the context assembler, the retry controller and the HTTP
    route of [server.py], and the chat relay of [discordbot.py], embedded in
    Rocq.

    Python values are modelled as follows.
    - [str] is [string]; f-string interpolation is concatenation and
      ["\n".join] is [String.concat] on a one-character separator.
    - [int] is [Z] (Python integers are unbounded).
    - a tiktoken encoding is a record holding its [encode] method, a function
      from text to a list of token ids; nothing else of it is used.
    - dictionaries read by key (HTTP headers, Chroma metadata) are
      [gmap string string].
    - a call that may raise returns an [outcome]; a call that talks to the
      outside world threads an abstract world state and the route records
      every such call in a trace.
    Logging has no effect on results and is left out. *)

From Stdlib Require Import ZArith Lia QArith.
From stdpp Require Import base list strings pretty gmap.

Local Open Scope string_scope.
Local Open Scope list_scope.
Local Open Scope Z_scope.

(** ** Context assembler *)

Module Assembler.

(** A tokenizer, as far as the program uses it: [enc.encode(text)]. *)
Record Encoding := { encode : string → list Z }.

(** The line-feed character, [chr(10)]. *)
Definition LF : string := String (Ascii.ascii_of_nat 10) EmptyString.

(** [def token_count(text, enc): return len(enc.encode(text))] *)
Definition token_count (text : string) (enc : Encoding) : Z :=
  Z.of_nat (length (encode enc text)).

(** [entry = f"{date}: {content}"] *)
Definition render (doc : string * string) : string :=
  let '(date, content) := doc in date +:+ ": " +:+ content.

(** The [for] loop of [truncate_documents], from a given state of its two
    local variables [total] and [selected]; [break] ends the recursion. *)
Fixpoint truncate_loop (enc : Encoding) (budget : Z)
    (docs : list (string * string)) (total : Z) (selected : list string)
    : list string :=
  match docs with
  | [] => selected
  | doc :: rest =>
      let entry := render doc in
      let t := token_count entry enc in
      if total + t >? budget then selected
      else truncate_loop enc budget rest (total + t) (selected ++ [entry])
  end.

(** The value of [selected] when the loop is left. *)
Definition select_documents (docs : list (string * string)) (enc : Encoding)
    (budget : Z) : list string :=
  truncate_loop enc budget docs 0 [].

(** [def truncate_documents(docs, enc, budget)] *)
Definition truncate_documents (docs : list (string * string)) (enc : Encoding)
    (budget : Z) : string :=
  String.concat LF (select_documents docs enc budget).

(** Sum of the token counts of a list of texts, each counted on its own. *)
Definition tokens_of_entries (enc : Encoding) (l : list string) : Z :=
  foldr (λ s acc, token_count s enc + acc) 0 l.

(** A tokenizer that never charges more for a newline-joined text than for
    its lines counted one by one. *)
Definition join_bounded (enc : Encoding) : Prop :=
  ∀ l : list string,
    token_count (String.concat LF l) enc ≤ tokens_of_entries enc l.

(** Two tokenizers for concrete runs: one token per character, and one token
    per character other than line feed. *)
Definition char_codes (s : string) : list Z :=
  (λ c, Z.of_nat (Ascii.nat_of_ascii c)) <$> String.list_ascii_of_string s.

Definition char_enc : Encoding := {| encode := char_codes |}.

Definition line_enc : Encoding :=
  {| encode := λ s, filter (λ z, z ≠ 10) (char_codes s) |}.

End Assembler.

(** ** Python values and effects shared by the retry controller and the route *)

Module Py.

(** The HTTP response attached to a provider error; only its headers are
    read.  Header names are kept in lower case, as [httpx] compares them. *)
Record Response := { headers : gmap string string }.

(** [openai.RateLimitError]: its message and its [response] attribute
    ([None] stands for an absent attribute or a [None] value alike, the two
    cases the guard [hasattr(e, "response") and e.response is not None]
    rejects). *)
Record RateLimitErr := { message : string; response : option Response }.

(** The exceptions the program can meet, each with what [str(e)] needs. *)
Inductive exn :=
| RateLimitError (e : RateLimitErr)
| KeyError (key : string)
| ValueError (msg : string)
| TypeError (msg : string)
| IndexError (msg : string)
| AttributeError (msg : string)
| Exception (msg : string).

Definition str_exn (e : exn) : string :=
  match e with
  | RateLimitError r => message r
  | KeyError key => "'" +:+ key +:+ "'"
  | ValueError msg | TypeError msg | IndexError msg
  | AttributeError msg | Exception msg => msg
  end.

Definition is_rate_limit (e : exn) : bool :=
  match e with RateLimitError _ => true | _ => false end.

(** What a call that may raise produces. *)
Inductive outcome (A : Type) :=
| Returned (a : A)
| Raised (e : exn).
Arguments Returned {A} a.
Arguments Raised {A} e.

Definition error_of {A} (o : outcome A) : option exn :=
  match o with Returned _ => None | Raised e => Some e end.

(** What [time.sleep] raises when it refuses a duration: [ValueError] for a
    negative one or a NaN, [OverflowError] for one too large for the
    platform.  The latter is kept as an [Exception]: the program tells
    exceptions apart only as rate-limit errors or not, and reads their
    [str]. *)
Inductive sleep_error :=
| SleepValueError (msg : string)
| SleepOverflowError (msg : string).

Definition exn_of_sleep_error (x : sleep_error) : exn :=
  match x with
  | SleepValueError msg => ValueError msg
  | SleepOverflowError msg => Exception msg
  end.

(** The external services a request can reach. *)
Inductive provider :=
| Embeddings
| VectorStore
| ChatCompletions.

Section Effects.
(** [F] is Python's [float], left abstract; [W] is the state of the world
    outside the process. *)
Context {F W : Type}.

(** A Python number as the program holds one in [wait_time]: the integer
    backoff or a float read from a header. *)
Inductive number :=
| PyInt (z : Z)
| PyFloat (f : F).

(** What is observed of a run: each invocation of an external service, with
    the exception it raised if any, and each [sleep] that took place. *)
Inductive event :=
| Invoke (p : provider) (err : option exn)
| Sleep (d : number).

(** A bound method of a provider client together with its arguments: the
    service it reaches and what invoking it does to the world. *)
Record Callable (R : Type) := {
  target : provider;
  run : W → outcome R * W
}.
Arguments target {R} c.
Arguments run {R} c w.

(** Computations of the program: they read and change the world, return or
    raise, and leave a trace.  [None] is the model running out of fuel in a
    loop, which the totality lemmas exclude. *)
Definition M (A : Type) : Type := W → option (outcome A * W * list event).

Definition ret {A} (a : A) : M A := λ w, Some (Returned a, w, []).

Definition raise {A} (e : exn) : M A := λ w, Some (Raised e, w, []).

Definition bind {A B} (m : M A) (k : A → M B) : M B := λ w,
  match m w with
  | None => None
  | Some (Raised e, w1, t1) => Some (Raised e, w1, t1)
  | Some (Returned a, w1, t1) =>
      match k a w1 with
      | None => None
      | Some (o, w2, t2) => Some (o, w2, t1 ++ t2)
      end
  end.

(** [try: m  except Exception as e: h e] *)
Definition try_except {A} (m : M A) (h : exn → M A) : M A := λ w,
  match m w with
  | None => None
  | Some (Returned a, w1, t1) => Some (Returned a, w1, t1)
  | Some (Raised e, w1, t1) =>
      match h e w1 with
      | None => None
      | Some (o, w2, t2) => Some (o, w2, t1 ++ t2)
      end
  end.

(** A result computed without touching the world. *)
Definition lift {A} (o : outcome A) : M A := λ w, Some (o, w, []).

(** Invoking [c] on its keyword arguments; the invocation is recorded. *)
Definition invoke {R} (c : Callable R) : M R := λ w,
  let '(o, w1) := run c w in
  Some (o, w1, [Invoke (target c) (error_of o)]).

Definition out_of_fuel {A} : M A := λ _, None.

(** [m] with the events [pre] observed before its own. *)
Definition after {A} (pre : list event) (m : M A) : M A := λ w,
  match m w with
  | None => None
  | Some (o, w1, t) => Some (o, w1, pre ++ t)
  end.

(** Reading a trace: the number of invocations of external services, the
    services invoked, and the durations slept. *)
Fixpoint invocations (t : list event) : nat :=
  match t with
  | [] => 0
  | Invoke _ _ :: t => S (invocations t)
  | Sleep _ :: t => invocations t
  end.

Definition invoked (p : provider) (t : list event) : Prop :=
  ∃ err, Invoke p err ∈ t.

Definition sleeps (t : list event) : list number :=
  omap (λ ev, match ev with Sleep d => Some d | _ => None end) t.
End Effects.

Arguments number F : clear implicits.
Arguments event F : clear implicits.
Arguments Callable W R : clear implicits.
Arguments M F W A : clear implicits.
Arguments target {W R} c.
Arguments run {W R} c w.

(** stdpp's monad notations [x ← m; k] and [m;; k] for [M]. *)
#[export] Instance M_ret {F W} : MRet (M F W) := λ A, ret.
#[export] Instance M_bind {F W} : MBind (M F W) := λ A B k m, bind m k.

End Py.

(** ** Retry controller *)

Module Retry.
Import Py.

Section WithRetry.
(** [float] is the builtin applied to a header value: [None] is its
    [ValueError].  [refuses d] is the error with which [time.sleep] rejects
    the duration [d], if it does.  [elapse d] is what the passing of [d]
    seconds does to the world. *)
Context {F W : Type}.
Variable float : string → option F.
Variable elapse : number F → W → W.
Variable refuses : number F → option sleep_error.

(** [sleep(wait_time)]: [time.sleep] raises when it refuses the duration,
    before any time has passed; otherwise time passes and the wait is
    recorded. *)
Definition sleep (d : number F) : M F W unit := λ w,
  match refuses d with
  | Some x => Some (Raised (exn_of_sleep_error x), w, [])
  | None => Some (Returned tt, elapse d w, [Sleep d])
  end.

(** The [try] block that reads the wait from the error's response headers.
    It assigns [wait_time] or raises [ValueError] from [float] before the
    assignment; [None] is that exception. *)
Definition read_wait (backoff : Z) (e : RateLimitErr)
    : option (number F) :=
  match response e with
  | Some r =>
      let headers := headers r in
      match headers !! "retry-after" with
      | Some v => PyFloat <$> float v
      | None =>
          match headers !! "x-ratelimit-reset-after" with
          | Some v => PyFloat <$> float v
          | None => Some (PyInt backoff)
          end
      end
  | None => Some (PyInt backoff)
  end.

(** [wait_time] when [sleep] is reached: initialised to [backoff], then
    whatever the [try] block assigned; the [except] clause leaves it as it
    was. *)
Definition wait_time (backoff : Z) (e : RateLimitErr) : number F :=
  match read_wait backoff e with
  | Some d => d
  | None => PyInt backoff
  end.

(** [backoff = min(backoff * 2, 60)] *)
Definition next_backoff (backoff : Z) : Z := Z.min (backoff * 2) 60.

(** The two local variables of [with_retry]. *)
Record RetryState := { retry_count : Z; backoff : Z }.

Definition initial : RetryState := {| retry_count := 0; backoff := 1 |}.

(** The [while] loop of [with_retry] from a given state of its locals.
    [Some r] is [return r]; [None] is leaving the loop by its condition,
    after which the function returns [None].  [fuel] bounds the number of
    iterations of the model. *)
Fixpoint retry_loop {R} (fuel : nat) (api_call : Callable W R)
    (max_retries : Z) (st : RetryState) : M F W (option R) :=
  if retry_count st <? max_retries then
    match fuel with
    | O => out_of_fuel
    | S fuel =>
        try_except (r ← invoke api_call; ret (Some r))
          (λ x,
            match x with
            | RateLimitError e =>
                let retry_count := retry_count st + 1 in
                if retry_count >=? max_retries then raise x
                else
                  let wait_time := wait_time (backoff st) e in
                  sleep wait_time;;
                  retry_loop fuel api_call max_retries
                    {| retry_count := retry_count;
                       backoff := next_backoff (backoff st) |}
            | _ => raise x
            end)
    end
  else ret None.

(** The locals after a rate-limited attempt that is retried. *)
Definition retried (st : RetryState) : RetryState :=
  {| retry_count := retry_count st + 1;
     backoff := next_backoff (backoff st) |}.

(** [def with_retry(api_call, max_retries=10, **kwargs)]; the keyword
    arguments are part of [api_call]. *)
Definition with_retry {R} (api_call : Callable W R) (max_retries : Z)
    : M F W (option R) :=
  retry_loop (Z.to_nat max_retries) api_call max_retries initial.

(** The backoff in force at the [k]-th rate-limited attempt, counting from
    zero. *)
Definition backoff_at (k : nat) : Z := Nat.iter k next_backoff 1.

(** The shape of a trace of [with_retry] from its [k]-th attempt on: every
    attempt but the last raised a rate-limit error and was followed by one
    sleep, of the wait computed from that error under the backoff in force
    at that attempt. *)
Fixpoint paced (k : nat) (t : list (event F)) : Prop :=
  match t with
  | [] | [Invoke _ _] => True
  | Invoke _ (Some (RateLimitError e)) :: Sleep d :: t =>
      d = wait_time (backoff_at k) e ∧ paced (S k) t
  | _ => False
  end.
End WithRetry.

End Retry.

(** ** The HTTP route *)

Module Server.
Import Assembler Py Retry.

Definition MODEL : string := "gpt-5-mini".
Definition TPM_BUDGET : Z := 400000.

(** A chat message sent to the completion provider. *)
Record message_param := { role : string; content : string }.

(** The provider objects the route reads, with the attributes it reads. *)
Record ChatCompletionMessage := { reply_content : option string }.
Record Choice := { choice_message : ChatCompletionMessage }.
Record ChatCompletion := { choices : list Choice }.

(** The result of [collection.query]; the [metadatas] entry may be [None],
    and otherwise holds one list of metadata dictionaries per query vector. *)
Record QueryResult := {
  metadatas : option (list (list (gmap string string)))
}.

Section WithEnv.
Context {F W : Type}.
Variable float : string → option F.
Variable elapse : number F → W → W.
Variable refuses : number F → option sleep_error.

Record Embedding := { embedding : list F }.
Record CreateEmbeddingResponse := { data : list Embedding }.

(** A Chroma collection, by its [query] method
    ([query_embeddings], [n_results]). *)
Record Collection := {
  query : list (list F) → Z → W → outcome QueryResult * W
}.

(** What the route imports and the clients it holds: tiktoken's two
    lookups, the OpenAI client's two endpoints, the Chroma client and the
    clock. *)
Record Env := {
  encoding_for_model : string → outcome Encoding;
  get_encoding : string → outcome Encoding;
  embeddings_create :
    string → string → W → outcome CreateEmbeddingResponse * W;
  get_or_create_collection : string → W → outcome Collection * W;
  chat_completions_create :
    string → list message_param → W → outcome ChatCompletion * W;
  today : W → string
}.

Variable env : Env.

(** [l[0]] *)
Definition first_item {A} (l : list A) : M F W A :=
  match l with
  | [] => raise (IndexError "list index out of range")
  | x :: _ => ret x
  end.

(** [m[key]] on a dictionary *)
Definition getitem (m : gmap string string) (key : string)
    : M F W string :=
  match m !! key with
  | Some v => ret v
  | None => raise (KeyError key)
  end.

(** [[(m["date"], m["content"]) for m in docs_meta]] *)
Fixpoint docs_of (docs_meta : list (gmap string string))
    : M F W (list (string * string)) :=
  match docs_meta with
  | [] => ret []
  | m :: rest =>
      date ← getitem m "date";
      content ← getitem m "content";
      docs ← docs_of rest;
      ret ((date, content) :: docs)
  end.

(** Attribute access on the value [with_retry] returned, which is [None]
    when the loop was left by its condition. *)
Definition attribute_of {R} (name : string) (r : option R) : M F W R :=
  match r with
  | Some r => ret r
  | None =>
      raise (AttributeError
               ("'NoneType' object has no attribute '" +:+ name +:+ "'"))
  end.

Definition indent : string := "            ".

(** The system instructions; [dedent] leaves the text as it is, its first
    line having no indentation. *)
Definition system_prompt_of (date : string) : string :=
  "You will be given diary entries that you will use to" +:+ LF
  +:+ indent
  +:+ "answer the user's questions according to your real life experiences."
  +:+ LF +:+ indent
  +:+ "If you do not know the answer for sure, say so." +:+ LF
  +:+ LF +:+ indent
  +:+ "You must NOT reveal or discuss overly personal or depressing details (e.g.,"
  +:+ LF +:+ indent
  +:+ "explicit sexual encounters, detailed relationship issues, hateful statements,"
  +:+ LF +:+ indent
  +:+ "or similar content, people who you ). Politely decline if the user requests such information."
  +:+ LF
  +:+ LF +:+ indent
  +:+ "Today's date is " +:+ date +:+ ".".

(** [not query_result["metadatas"] or not query_result["metadatas"][0]] *)
Definition no_documents (query_result : QueryResult) : bool :=
  match metadatas query_result with
  | None | Some [] | Some ([] :: _) => true
  | Some ((_ :: _) :: _) => false
  end.

(** The tokenizer of the model, or [cl100k_base] when tiktoken does not
    know the model ([except KeyError]). *)
Definition make_encoder : outcome Encoding :=
  match encoding_for_model env MODEL with
  | Raised (KeyError _) => get_encoding env "cl100k_base"
  | o => o
  end.

(** [datetime.datetime.now()] formatted as [%Y-%m-%d] *)
Definition now : M F W string := λ w, Some (Returned (today env w), w, []).

(** The [try] block of [mainroute], for a prompt that passed the guard. *)
Definition answer (prompt : string) : M F W (string * Z) :=
  enc ← lift make_encoder;
  embedding_response ←
    with_retry float elapse refuses
      {| target := Embeddings;
         run := embeddings_create env prompt "text-embedding-3-small" |}
      10;
  embedding_response ← attribute_of "data" embedding_response;
  item ← first_item (data embedding_response);
  let embedding := embedding item in
  collection ←
    invoke {| target := VectorStore;
              run := get_or_create_collection env "diary-rag-experiment" |};
  query_result ←
    invoke {| target := VectorStore;
              run := query collection [embedding] 40 |};
  if no_documents query_result then
    ret ("No relevant diary entries found.", 200)
  else
    docs_meta ← first_item (default [] (metadatas query_result));
    docs ← docs_of docs_meta;
    date ← now;
    let system_prompt := system_prompt_of date in
    let context_budget := TPM_BUDGET - 4000 in
    let knowledge := truncate_documents docs enc context_budget in
    let messages :=
      [ {| role := "system"; content := system_prompt |};
        {| role := "user";
           content := "Here are relevant diary entries:" +:+ LF
                      +:+ knowledge +:+ LF +:+ LF
                      +:+ "User query: " +:+ prompt |} ] in
    resp ←
      with_retry float elapse refuses
        {| target := ChatCompletions;
           run := chat_completions_create env MODEL messages |}
        10;
    resp ← attribute_of "choices" resp;
    choice ← first_item (choices resp);
    match reply_content (choice_message choice) with
    | None => raise (TypeError "object of type 'NoneType' has no len()")
    | Some response_text => ret (response_text, 200)
    end.

(** [not prompt]: the parameter is missing or empty. *)
Definition missing (prompt : option string) : bool :=
  match prompt with
  | None | Some "" => true
  | Some _ => false
  end.

(** [def mainroute()], on the value of [request.args.get("prompt")]. *)
Definition mainroute (prompt : option string) : M F W (string * Z) :=
  if missing prompt then
    ret ("Please provide a prompt using the 'prompt' query parameter.", 400)
  else
    try_except (answer (default "" prompt))
      (λ e, ret ("An error occurred: " +:+ str_exn e, 500)).
End WithEnv.

End Server.

(** ** Concrete providers for running the model *)

Module Examples.
Import Assembler Py Retry Server.

(** [float] on unsigned decimal integers, with [Q] for the floats; the
    header values of the examples below are of this form or are not
    numerals at all. *)
Definition digit (c : Ascii.ascii) : option Z :=
  let n := Ascii.nat_of_ascii c in
  if ((48 <=? n) && (n <=? 57))%nat then Some (Z.of_nat (n - 48)) else None.

Fixpoint digits (s : string) (acc : Z) : option Z :=
  match s with
  | EmptyString => Some acc
  | String c s => d ← digit c; digits s (10 * acc + d)
  end.

Definition float_digits (s : string) : option Q :=
  match s with
  | EmptyString => None
  | _ => inject_Z <$> digits s 0
  end.

(** The world is the number of provider invocations made so far; sleeping
    does not change it. *)
Definition elapse_none (d : number Q) (w : nat) : nat := w.

(** [time.sleep] on integers and rationals: a negative duration is refused. *)
Definition refuses_negative (d : number Q) : option sleep_error :=
  match d with
  | PyInt z =>
      if z <? 0 then Some (SleepValueError "sleep length must be non-negative")
      else None
  | PyFloat q =>
      if Qnum q <? 0
      then Some (SleepValueError "sleep length must be non-negative")
      else None
  end.

(** [float] on decimal integers with an optional minus sign. *)
Definition float_signed (s : string) : option Q :=
  match s with
  | String c s' =>
      if Ascii.eqb c (Ascii.ascii_of_nat 45)
      then Qopp <$> float_digits s'
      else float_digits s
  | EmptyString => None
  end.

(** A provider call whose [i]-th invocation behaves as [script i]. *)
Definition scripted {R} (p : provider) (script : nat → outcome R)
    : Callable nat R :=
  {| target := p; run := λ w, (script w, S w) |}.

Definition rate_limited (hs : gmap string string) : exn :=
  RateLimitError
    {| message := "Rate limit reached";
       response := Some {| headers := hs |} |}.

Definition bare_rate_limit : exn :=
  RateLimitError {| message := "Rate limit reached"; response := None |}.

(** Always rate-limited, with no timing header. *)
Definition always_limited : Callable nat string :=
  scripted Embeddings (λ _, Raised (rate_limited ∅)).

(** Rate-limited with a [retry-after] header, then with only a reset header,
    then with none, then successful. *)
Definition thrice_limited : Callable nat string :=
  scripted Embeddings (λ i,
    match i with
    | 0%nat => Raised (rate_limited {[ "retry-after" := "7" ]})
    | 1%nat => Raised (rate_limited {[ "x-ratelimit-reset-after" := "3" ]})
    | 2%nat => Raised (rate_limited ∅)
    | _ => Returned "ok"
    end).

(** Always rate-limited, with a negative [retry-after]. *)
Definition negative_error : RateLimitErr :=
  {| message := "Rate limit reached";
     response := Some {| headers := {[ "retry-after" := "-1" ]} |} |}.

Definition negative_limited : Callable nat string :=
  scripted Embeddings (λ _, Raised (RateLimitError negative_error)).

(** A connection failure on the first invocation. *)
Definition refused : Callable nat string :=
  scripted ChatCompletions (λ _, Raised (Exception "Connection error.")).

(** Rate-limited once, with an HTTP-date in [retry-after], then successful. *)
Definition dated_limit : Callable nat string :=
  scripted Embeddings (λ i,
    match i with
    | 0%nat =>
        Raised (rate_limited
                  {[ "retry-after" := "Wed, 21 Oct 2015 07:28:00 GMT" ]})
    | _ => Returned "ok"
    end).


(** Rate-limited once, with a numeric [retry-after] beside a reset header
    that is not a number, then successful. *)
Definition mixed_headers : gmap string string :=
  {[ "retry-after" := "2"; "x-ratelimit-reset-after" := "soon" ]}.

Definition mixed_error : RateLimitErr :=
  {| message := "Rate limit reached";
     response := Some {| headers := mixed_headers |} |}.

Definition mixed_limit : Callable nat string :=
  scripted Embeddings (λ i,
    match i with
    | 0%nat => Raised (RateLimitError mixed_error)
    | _ => Returned "ok"
    end).

Definition dated_error : RateLimitErr :=
  {| message := "Rate limit reached";
     response :=
       Some {| headers :=
                 {[ "retry-after" := "Wed, 21 Oct 2015 07:28:00 GMT" ]} |} |}.


(** A deployment whose store is empty: tiktoken does not know the model,
    the embedding call succeeds, the collection has no entry. *)
Definition empty_collection : @Collection Q nat :=
  {| query := λ _ _ w, (Returned {| metadatas := Some [[]] |}, S w) |}.

Definition reply (text : string) : ChatCompletion :=
  {| choices :=
       [ {| choice_message := {| reply_content := Some text |} |} ] |}.

Definition empty_env : @Env Q nat :=
  {| encoding_for_model := λ model, Raised (KeyError model);
     get_encoding := λ _, Returned char_enc;
     embeddings_create := λ _ _ w,
       (Returned {| data := [ {| embedding := [1%Q; 0%Q] |} ] |}, S w);
     get_or_create_collection := λ _ w, (Returned empty_collection, S w);
     chat_completions_create := λ _ _ w,
       (Returned (reply "It was a quiet day."), S w);
     today := λ _, "2026-01-01" |}.

(** The same deployment with three diary entries in the store. *)
Definition diary : list (gmap string string) :=
  [ {[ "date" := "2025-03-01"; "content" := "Cake with Ana." ]};
    {[ "date" := "2025-03-02"; "content" := "Rain." ]};
    {[ "date" := "2024-03-01"; "content" := "Hiking." ]} ].

Definition diary_collection : @Collection Q nat :=
  {| query := λ _ _ w, (Returned {| metadatas := Some [diary] |}, S w) |}.

Definition diary_env : @Env Q nat :=
  {| encoding_for_model := λ model, Raised (KeyError model);
     get_encoding := λ _, Returned char_enc;
     embeddings_create := λ _ _ w,
       (Returned {| data := [ {| embedding := [1%Q; 0%Q] |} ] |}, S w);
     get_or_create_collection := λ _ w, (Returned diary_collection, S w);
     chat_completions_create := λ _ messages w,
       (Returned (reply (default "" (content <$> last messages))), S w);
     today := λ _, "2026-01-01" |}.

(** The deployment of [diary_env] with an embedding endpoint that always
    answers with a rate-limit error. *)
Definition limited_env : @Env Q nat :=
  {| encoding_for_model := λ model, Raised (KeyError model);
     get_encoding := λ _, Returned char_enc;
     embeddings_create := λ _ _ w, (Raised (rate_limited ∅), S w);
     get_or_create_collection := λ _ w, (Returned diary_collection, S w);
     chat_completions_create := λ _ _ w,
       (Returned (reply "It was a quiet day."), S w);
     today := λ _, "2026-01-01" |}.

(** The deployment of [diary_env] with a store whose second record has no
    [content] entry. *)
Definition torn_diary : list (gmap string string) :=
  [ {[ "date" := "2025-03-01"; "content" := "Cake with Ana." ]};
    {[ "date" := "2025-03-02" ]} ].

Definition torn_collection : @Collection Q nat :=
  {| query := λ _ _ w, (Returned {| metadatas := Some [torn_diary] |}, S w) |}.

Definition torn_env : @Env Q nat :=
  {| encoding_for_model := λ model, Raised (KeyError model);
     get_encoding := λ _, Returned char_enc;
     embeddings_create := λ _ _ w,
       (Returned {| data := [ {| embedding := [1%Q; 0%Q] |} ] |}, S w);
     get_or_create_collection := λ _ w, (Returned torn_collection, S w);
     chat_completions_create := λ _ _ w,
       (Returned (reply "It was a quiet day."), S w);
     today := λ _, "2026-01-01" |}.

End Examples.

(** ** Provider behaviours over several attempts *)

Module Scenario.
Import Py Retry.

Section Recovery.
Context {F W R : Type}.
Variable float : string → option F.
Variable elapse : number F → W → W.
Variable refuses : number F → option sleep_error.
Variable api_call : Callable W R.

(** [recovers k b w r w'] : from world [w], with [b] the backoff in force,
    the call is rate-limited on [k] attempts in a row, each followed by a
    wait that [sleep] accepts, the world moving on through each attempt and
    each wait, and then returns [r], leaving the world [w']. *)
Inductive recovers : nat → Z → W → R → W → Prop :=
| recovers_now (b : Z) (w w1 : W) (r : R) :
    run api_call w = (Returned r, w1) →
    recovers 0 b w r w1
| recovers_later (k : nat) (b : Z) (w w1 w2 : W) (e : RateLimitErr) (r : R) :
    run api_call w = (Raised (RateLimitError e), w1) →
    refuses (wait_time float b e) = None →
    recovers k (next_backoff b) (elapse (wait_time float b e) w1) r w2 →
    recovers (S k) b w r w2.
End Recovery.

Section Stages.
Context {F : Type}.

(** A stretch of trace made by one [with_retry] around provider [p] with the
    default bound: only [p] is invoked, at most 10 times. *)
Definition retry_stage (p : provider) (t : list (event F)) : Prop :=
  (∀ ev, ev ∈ t → (∃ err, ev = Invoke p err) ∨ (∃ d, ev = Sleep d))
  ∧ (invocations t ≤ 10)%nat.

(** A trace in the order of the pipeline: the embedding stage, then at most
    two invocations of the vector store, reached only after an embedding
    call returned, then the completion stage, reached only after both store
    invocations returned. *)
Definition pipeline (t : list (event F)) : Prop :=
  ∃ te ts tc,
    t = te ++ ts ++ tc
    ∧ retry_stage Embeddings te
    ∧ (∀ ev, ev ∈ ts → ∃ err, ev = Invoke VectorStore err)
    ∧ (length ts ≤ 2)%nat
    ∧ retry_stage ChatCompletions tc
    ∧ (ts ≠ [] → last te = Some (Invoke Embeddings None))
    ∧ (tc ≠ [] →
       ts = [Invoke VectorStore None; Invoke VectorStore None]).

(** A computation that neither touches the world nor leaves a trace. *)
Definition silent {W A : Type} (m : M F W A) : Prop :=
  ∀ w o w' t, m w = Some (o, w', t) → w' = w ∧ t = [].
End Stages.

End Scenario.

(** ** String methods used by the relay *)

Module Str.

(** The methods below work character by character; a character is a code
    point below 256. *)

(** [str.isspace] on one character: the Unicode white space below 256. *)
Definition isspace (c : Ascii.ascii) : bool :=
  let n := Ascii.nat_of_ascii c in
  (((9 <=? n) && (n <=? 13)) || ((28 <=? n) && (n <=? 32))
   || (n =? 133) || (n =? 160))%nat.

(** [str.lower] on one character: the upper-case letters below 256 are
    [A]-[Z] and the code points 192 to 222 other than 215. *)
Definition lower_char (c : Ascii.ascii) : Ascii.ascii :=
  let n := Ascii.nat_of_ascii c in
  if (((65 <=? n) && (n <=? 90))
      || ((192 <=? n) && (n <=? 222) && negb (n =? 215)))%nat
  then Ascii.ascii_of_nat (n + 32)
  else c.

(** [s.lower()] *)
Fixpoint lower (s : string) : string :=
  match s with
  | EmptyString => EmptyString
  | String c s => String (lower_char c) (lower s)
  end.

(** [s.lstrip()] *)
Fixpoint lstrip (s : string) : string :=
  match s with
  | EmptyString => EmptyString
  | String c s' => if isspace c then lstrip s' else s
  end.

(** [s.rstrip()] *)
Fixpoint rstrip (s : string) : string :=
  match s with
  | EmptyString => EmptyString
  | String c s' =>
      match rstrip s' with
      | EmptyString => if isspace c then EmptyString else String c EmptyString
      | r => String c r
      end
  end.

(** [s.strip()] *)
Definition strip (s : string) : string := rstrip (lstrip s).

(** [s.startswith(prefix)] *)
Definition startswith (s prefix : string) : bool := String.prefix prefix s.

(** The first run of characters that are not white space, and what follows
    it. *)
Fixpoint word (s : string) : string * string :=
  match s with
  | EmptyString => (EmptyString, EmptyString)
  | String c s' =>
      if isspace c then (EmptyString, s)
      else let '(w, rest) := word s' in (String c w, rest)
  end.

(** [s.split(maxsplit=1)]: white space is skipped, the first word is cut,
    white space is skipped again and what is left, if anything, is the
    second part, kept up to the end of [s]. *)
Definition split_once (s : string) : list string :=
  match lstrip s with
  | EmptyString => []
  | s1 =>
      let '(w, rest) := word s1 in
      match lstrip rest with
      | EmptyString => [w]
      | tail => [w; tail]
      end
  end.

(** Strings made of white space only, and strings without white space. *)
Fixpoint blank (s : string) : bool :=
  match s with
  | EmptyString => true
  | String c s => isspace c && blank s
  end.

Fixpoint solid (s : string) : bool :=
  match s with
  | EmptyString => true
  | String c s => negb (isspace c) && solid s
  end.

(** [s[:n]] for a count [n] that is not negative *)
Fixpoint take (n : nat) (s : string) : string :=
  match n, s with
  | S n, String c s => String c (take n s)
  | _, _ => EmptyString
  end.

(** [c * n] for a one-character string *)
Fixpoint replicate (n : nat) (c : Ascii.ascii) : string :=
  match n with
  | O => EmptyString
  | S n => String c (replicate n c)
  end.

End Str.

(** ** The chat relay of [discordbot.py] *)

Module Relay.
Import Str.

Definition ALLOWED_GUILD_ID : Z := 857732000890748998.

(** A Discord message, by what the handler reads: the id of its guild
    ([None] outside a guild), the id of its author and its text. *)
Record Message := { guild : option Z; author : Z; content : string }.

(** An [httpx] response, by the attributes read. *)
Record HttpResponse := { status_code : Z; text : string }.

(** The exceptions the handler tells apart, by the first [except] clause
    that takes them: [TimeoutException] and [RequestError] stand for their
    subclasses not named before them and carry the name of the class;
    [Exception] is anything else, with its [str]. *)
Inductive exn :=
| HTTPStatusError (response : HttpResponse)
| ReadError (msg : string)
| ConnectError (msg : string)
| TimeoutException (name msg : string)
| RequestError (name msg : string)
| Exception (msg : string).

Inductive result (A : Type) :=
| Done (a : A)
| Failed (e : exn).
Arguments Done {A} a.
Arguments Failed {A} e.

(** What is observed of the handler: lines printed on the console, the
    operator's answer to [input] ([None] when [input] raised), the request
    sent to the answering service and the messages posted to the channel. *)
Inductive event :=
| Print (line : string)
| Input (answer : option string)
| Get (url : string) (prompt : string)
| Send (content : string).

Section WithWorld.
Context {W : Type}.

(** The outside of the handler: the HTTP client ([get] with the [prompt]
    parameter, and whether [raise_for_status] raises for a response), the
    console and the channel of the message. *)
Record Env := {
  get : string → string → W → result HttpResponse * W;
  raises_for_status : HttpResponse → bool;
  input : string → W → result string * W;
  send : string → W → result unit * W
}.

Variable env : Env.

Definition M (A : Type) : Type := W → result A * W * list event.

Definition ret {A} (a : A) : M A := λ w, (Done a, w, []).

Definition raise {A} (e : exn) : M A := λ w, (Failed e, w, []).

Definition bind {A B} (m : M A) (k : A → M B) : M B := λ w,
  match m w with
  | (Failed e, w1, t1) => (Failed e, w1, t1)
  | (Done a, w1, t1) => let '(o, w2, t2) := k a w1 in (o, w2, t1 ++ t2)
  end.

Definition try_except {A} (m : M A) (h : exn → M A) : M A := λ w,
  match m w with
  | (Done a, w1, t1) => (Done a, w1, t1)
  | (Failed e, w1, t1) => let '(o, w2, t2) := h e w1 in (o, w2, t1 ++ t2)
  end.

(** [print(line)] *)
Definition print (line : string) : M unit := λ w, (Done tt, w, [Print line]).

(** [await loop.run_in_executor(None, input, prompt)] *)
Definition ask (prompt : string) : M string := λ w,
  let '(o, w1) := input env prompt w in
  (o, w1, [Input match o with Done a => Some a | Failed _ => None end]).

(** [await http_client.get(url, params={"prompt": prompt}, timeout=120.0)] *)
Definition http_get (url prompt : string) : M HttpResponse := λ w,
  let '(o, w1) := get env url prompt w in (o, w1, [Get url prompt]).

(** [response.raise_for_status()] *)
Definition raise_for_status (response : HttpResponse) : M unit :=
  if raises_for_status env response then raise (HTTPStatusError response)
  else ret tt.

(** [await message.channel.send(content)] *)
Definition channel_send (content : string) : M unit := λ w,
  let '(o, w1) := send env content w in (o, w1, [Send content]).

(** [message_preview[:1500] + ("..." if len(message_preview) > 1500 else "")] *)
Definition preview_of (message_preview : string) : string :=
  take 1500 message_preview
  +:+ (if (1500 <? String.length message_preview)%nat then "..." else "").

(** [response.lower().strip() == "y"] *)
Definition accepts (response : string) : bool :=
  String.eqb (strip (lower response)) "y".

Definition rule : string := replicate 60 (Ascii.ascii_of_nat 61).

(** [async def confirm_send(message_preview)] *)
Definition confirm_send (message_preview : string) : M bool :=
  bind (print (String (Ascii.ascii_of_nat 10) rule)) (λ _,
  bind (print "Message to send (first 200 chars):") (λ _,
  let preview := preview_of message_preview in
  bind (print preview) (λ _,
  bind (print rule) (λ _,
  bind (ask "Send this message? (y/n): ") (λ response,
  ret (accepts response)))))).

(** The text shown to the operator for each class of failure. *)
Definition error_msg (e : exn) : string :=
  match e with
  | HTTPStatusError response =>
      "Server returned error " +:+ pretty (status_code response) +:+ ": "
      +:+ text response
  | ReadError _ =>
      "The connection to the server was interrupted. "
      +:+ "The server may have crashed or closed the connection unexpectedly. "
      +:+ "Please check if the server is running."
  | ConnectError _ =>
      "Could not connect to the server. "
      +:+ "Please make sure the server is running on http://localhost:5000"
  | TimeoutException _ _ =>
      "The request timed out after 120 seconds. "
      +:+ "The server may be taking too long to respond."
  | RequestError name _ =>
      "An error occurred while connecting to the server: " +:+ name
  | Exception msg => "An unexpected error occurred: " +:+ msg
  end.

(** The body every [except] clause shares:
    [if await confirm_send(error_msg): await message.channel.send(error_msg)] *)
Definition report (e : exn) : M unit :=
  let error_msg := error_msg e in
  bind (confirm_send error_msg) (λ ok,
  if ok then channel_send error_msg else ret tt).

(** The [try] block, for the prompt cut from the message. *)
Definition relay (prompt : string) : M unit :=
  let url := "http://localhost:5000/" in
  bind (http_get url prompt) (λ response,
  bind (raise_for_status response) (λ _,
  let data := text response in
  bind (confirm_send data) (λ ok,
  if ok then channel_send data
  else channel_send "Message sending was cancelled."))).

(** [async def on_message(message)], for the bot logged in as user
    [client_user]. *)
Definition on_message (client_user : Z) (message : Message) : M unit :=
  if match guild message with
     | None => true
     | Some id => negb (id =? ALLOWED_GUILD_ID)
     end
  then ret tt
  else if author message =? client_user then ret tt
  else if startswith (lower (content message)) "$prompt" then
    let parts := split_once (content message) in
    match parts with
    | _ :: prompt :: _ => try_except (relay prompt) report
    | _ => channel_send "Please provide a prompt after $prompt."
    end
  else ret tt.

(** The console dialogue of one [confirm_send]. *)
Definition dialogue (message_preview : string) (answer : option string)
    : list event :=
  [ Print (String (Ascii.ascii_of_nat 10) rule);
    Print "Message to send (first 200 chars):";
    Print (preview_of message_preview);
    Print rule;
    Input answer ].

(** Every message posted is one of the two fixed notices, or comes right
    after the dialogue that showed its preview and an answer that accepts
    it. *)
Definition gated (t : list event) : Prop :=
  ∀ (i : nat) (s : string),
    t !! i = Some (Send s) →
    s = "Please provide a prompt after $prompt."
    ∨ s = "Message sending was cancelled."
    ∨ ∃ pre post answer,
        t = pre ++ dialogue s (Some answer) ++ Send s :: post
        ∧ (length pre + 5 = i)%nat
        ∧ accepts answer = true.

(** A trace without a request to the answering service. *)
Definition quiet (t : list event) : Prop := ∀ u q, Get u q ∉ t.
End WithWorld.

Arguments Env W : clear implicits.
Arguments M W A : clear implicits.

End Relay.

(** ** A console, a channel and a server for running the relay *)

Module RelayExamples.
Import Relay.

(** The world is the list of answers the operator will type; the server
    answers every request with [reply]. *)
Definition console (reply : result HttpResponse) : Env (list string) :=
  {| get := λ _ _ w, (reply, w);
     raises_for_status := λ r,
       negb ((200 <=? status_code r) && (status_code r <=? 299));
     input := λ _ w,
       match w with
       | [] => (Failed (Exception "EOF when reading a line"), [])
       | a :: w => (Done a, w)
       end;
     send := λ _ w, (Done tt, w) |}.

Definition ask_message (content : string) : Message :=
  {| guild := Some ALLOWED_GUILD_ID; author := 7; content := content |}.

End RelayExamples.

(** * Properties *)

Import Assembler Py Retry Server Scenario Examples.

(** ** Context assembler *)

Section AssemblerFacts.
Variable enc : Encoding.
Variable budget : Z.

Lemma tokens_of_entries_app (l1 l2 : list string) :
  tokens_of_entries enc (l1 ++ l2)
  = tokens_of_entries enc l1 + tokens_of_entries enc l2.
Proof.
  induction l1 as [|s l1 IH]; simpl; [reflexivity|].
  rewrite IH. lia.
Qed.

Lemma tokens_of_entries_cons (s : string) (l : list string) :
  tokens_of_entries enc (s :: l)
  = token_count s enc + tokens_of_entries enc l.
Proof. reflexivity. Qed.

Lemma token_count_nonneg (s : string) : 0 ≤ token_count s enc.
Proof. unfold token_count. lia. Qed.

Lemma tokens_of_entries_nonneg (l : list string) :
  0 ≤ tokens_of_entries enc l.
Proof.
  induction l as [|s l IH]; simpl; [lia|].
  pose proof (token_count_nonneg s). lia.
Qed.

(** The loop, from any state: it appends the rendering of a prefix of the
    documents still to visit, keeps the running total within the budget,
    and stops short only at a document that does not fit. *)
Lemma truncate_loop_prefix (docs : list (string * string)) :
  ∀ (total : Z) (selected : list string),
  ∃ n : nat,
    (n ≤ length docs)%nat
    ∧ truncate_loop enc budget docs total selected
      = selected ++ (render <$> take n docs)
    ∧ (total ≤ budget →
       total + tokens_of_entries enc (render <$> take n docs) ≤ budget)
    ∧ (∀ doc, docs !! n = Some doc →
       total + tokens_of_entries enc (render <$> take n docs)
       + token_count (render doc) enc > budget).
Proof.
  induction docs as [|doc rest IH]; intros total selected.
  - exists 0%nat. simpl. rewrite app_nil_r.
    repeat split; [lia | lia | intros doc Hdoc; discriminate].
  - simpl truncate_loop.
    destruct (Z.gtb_spec (total + token_count (render doc) enc) budget)
      as [Hcmp|Hcmp].
    + exists 0%nat. simpl. rewrite app_nil_r.
      repeat split; [lia | lia |].
      intros doc' Hdoc'. injection Hdoc' as <-. lia.
    + destruct (IH (total + token_count (render doc) enc)
                  (selected ++ [render doc])) as (n & Hn & Heq & Hsum & Hstop).
      exists (S n).
      rewrite firstn_cons, fmap_cons, tokens_of_entries_cons.
      repeat split.
      * simpl. lia.
      * rewrite Heq, <- app_assoc. reflexivity.
      * intros _. specialize (Hsum ltac:(lia)). lia.
      * intros doc' Hdoc'. specialize (Hstop doc' Hdoc'). lia.
Qed.

Lemma select_documents_prefix (docs : list (string * string)) :
  ∃ n : nat,
    (n ≤ length docs)%nat
    ∧ select_documents docs enc budget = render <$> take n docs
    ∧ (0 ≤ budget →
       tokens_of_entries enc (render <$> take n docs) ≤ budget)
    ∧ (∀ doc, docs !! n = Some doc →
       tokens_of_entries enc (render <$> take n docs)
       + token_count (render doc) enc > budget).
Proof.
  destruct (truncate_loop_prefix docs 0 [])
    as (n & Hn & Heq & Hsum & Hstop).
  exists n. repeat split; [exact Hn | exact Heq | lia |].
  intros doc Hdoc. specialize (Hstop doc Hdoc). lia.
Qed.
End AssemblerFacts.

(** The one-token-per-visible-character tokenizer never charges more for a
    joined block than for its lines. *)
Lemma line_enc_join_bounded : join_bounded line_enc.
Proof.
  assert (Happ : ∀ a b : string,
    char_codes (a +:+ b) = char_codes a ++ char_codes b).
  { intros a b. unfold char_codes.
    induction a as [|c a IH]; simpl; [reflexivity|].
    f_equal. exact IH. }
  assert (Hcount : ∀ a b : string,
    token_count (a +:+ LF +:+ b) line_enc
    = token_count a line_enc + token_count b line_enc).
  { intros a b. unfold token_count. simpl encode.
    rewrite !Happ, !filter_app, !length_app.
    replace (length (filter (λ z : Z, z ≠ 10) (char_codes LF))) with 0%nat
      by reflexivity.
    lia. }
  intros l.
  induction l as [|s l IH]; [cbv; discriminate|].
  rewrite tokens_of_entries_cons.
  destruct l as [|s' l].
  - change (String.concat LF [s]) with s.
    change (tokens_of_entries line_enc []) with 0. lia.
  - change (String.concat LF (s :: s' :: l))
      with (s +:+ LF +:+ String.concat LF (s' :: l)).
    rewrite Hcount. lia.
Qed.

(** C1, as stated, fails: the separators that [join] inserts are not counted
    by the loop.  With one token per character and a budget of 8, the two
    entries ["a: b"] and ["c: d"] cost 4 tokens each and are both selected,
    and the block ["a: b\nc: d"] has 9 tokens.  A negative budget is exceeded
    by the empty block as well. *)
Lemma truncate_documents_block_over_budget :
  truncate_documents [("a", "b"); ("c", "d")] char_enc 8
  = "a: b" +:+ LF +:+ "c: d"
  ∧ ¬ token_count (truncate_documents [("a", "b"); ("c", "d")] char_enc 8)
        char_enc ≤ 8
  ∧ ¬ token_count (truncate_documents [] char_enc (-1)) char_enc ≤ -1.
Proof.
  split; [reflexivity|].
  split; intros H; vm_compute in H; apply H; reflexivity.
Qed.

(** C1, amended: for every sequence of documents, every tokenizer and every
    budget that is not negative, the rendered documents selected by
    [truncate_documents] have token counts, each counted on its own, that
    sum to at most the budget, and the returned block is their join by line
    feeds; the token count of the block itself is within the budget for a
    tokenizer that charges a joined text no more than its lines. *)
Theorem truncate_documents_within_budget
    (docs : list (string * string)) (enc : Encoding) (budget : Z) :
  0 ≤ budget →
  truncate_documents docs enc budget
  = String.concat LF (select_documents docs enc budget)
  ∧ tokens_of_entries enc (select_documents docs enc budget) ≤ budget
  ∧ (join_bounded enc →
     token_count (truncate_documents docs enc budget) enc ≤ budget).
Proof.
  intros Hbudget.
  destruct (select_documents_prefix enc budget docs)
    as (n & _ & Heq & Hsum & _).
  split; [reflexivity|].
  split.
  - rewrite Heq. apply Hsum, Hbudget.
  - intros Hjoin. unfold truncate_documents.
    etransitivity; [apply Hjoin|].
    rewrite Heq. apply Hsum, Hbudget.
Qed.

Lemma truncate_documents_within_budget_witness :
  0 ≤ 8
  ∧ tokens_of_entries char_enc
      (select_documents [("a", "b"); ("c", "d")] char_enc 8) ≤ 8
  ∧ token_count
      (truncate_documents [("a", "b"); ("c", "d"); ("e", "f")] line_enc 8)
      line_enc ≤ 8.
Proof.
  split; [lia|]. split.
  - apply (truncate_documents_within_budget
             [("a", "b"); ("c", "d")] char_enc 8). lia.
  - apply (truncate_documents_within_budget
             [("a", "b"); ("c", "d"); ("e", "f")] line_enc 8); [lia|].
    exact line_enc_join_bounded.
Defined.

(** C5: for every input sequence, the documents rendered into the block are
    the first [n] documents of the input, in order, for some [n]; none is
    skipped, and the document at position [n], if there is one, is the first
    that did not fit, so nothing after it is included. *)
Theorem truncate_documents_contiguous_prefix
    (docs : list (string * string)) (enc : Encoding) (budget : Z) :
  ∃ n : nat,
    (n ≤ length docs)%nat
    ∧ select_documents docs enc budget = render <$> take n docs
    ∧ truncate_documents docs enc budget
      = String.concat LF (render <$> take n docs)
    ∧ (∀ doc, docs !! n = Some doc →
       tokens_of_entries enc (render <$> take n docs)
       + token_count (render doc) enc > budget).
Proof.
  destruct (select_documents_prefix enc budget docs)
    as (n & Hn & Heq & _ & Hstop).
  exists n. unfold truncate_documents. rewrite Heq. auto.
Qed.

(** C6: when the first document's rendering ["<date>: <content>"] has more
    tokens than the budget, [truncate_documents] returns the empty string;
    the function is total, so this is a value and not a failure. *)
Theorem truncate_documents_first_too_large
    (date content : string) (rest : list (string * string))
    (enc : Encoding) (budget : Z) :
  token_count (date +:+ ": " +:+ content) enc > budget →
  truncate_documents ((date, content) :: rest) enc budget = "".
Proof.
  intros Hbig.
  unfold truncate_documents, select_documents. simpl truncate_loop.
  destruct (Z.gtb_spec (0 + token_count (date +:+ ": " +:+ content) enc) budget)
    as [_|Hle]; [reflexivity | lia].
Qed.

Lemma truncate_documents_first_too_large_witness :
  token_count ("2024-01-01" +:+ ": " +:+ "long day") char_enc > 5
  ∧ truncate_documents [("2024-01-01", "long day"); ("x", "y")] char_enc 5
    = "".
Proof.
  split; [reflexivity|].
  apply (truncate_documents_first_too_large
           "2024-01-01" "long day" [("x", "y")] char_enc 5).
  reflexivity.
Defined.

(** ** Retry controller *)

Section RetryFacts.
Context {F W R : Type}.
Variable float : string → option F.
Variable elapse : number F → W → W.
Variable refuses : number F → option sleep_error.
Variable api_call : Callable W R.
Variable max_retries : Z.

Abbreviation loop fuel :=
  (retry_loop float elapse refuses fuel api_call max_retries).

Ltac enter_loop :=
  cbn [retry_loop];
  match goal with
  | |- context [?a <? ?b] => destruct (Z.ltb_spec a b); [|lia]
  end;
  unfold try_except, mbind, M_bind, bind, invoke.

(** Leaving the loop by its condition. *)
Lemma retry_loop_exit (fuel : nat) (st : RetryState) (w : W) :
  max_retries ≤ retry_count st →
  loop fuel st w = Some (Returned None, w, []).
Proof.
  intros Hge.
  destruct fuel; cbn [retry_loop];
    destruct (Z.ltb_spec (retry_count st) max_retries); try lia;
    reflexivity.
Qed.

(** An attempt that returns. *)
Lemma retry_loop_returned (fuel : nat) (st : RetryState) (w w1 : W) (r : R) :
  retry_count st < max_retries →
  run api_call w = (Returned r, w1) →
  loop (S fuel) st w
  = Some (Returned (Some r), w1, [Invoke (target api_call) None]).
Proof.
  intros Hlt Hrun. enter_loop. rewrite Hrun. reflexivity.
Qed.

(** An attempt that raises anything but a rate-limit error. *)
Lemma retry_loop_other (fuel : nat) (st : RetryState) (w w1 : W) (x : exn) :
  retry_count st < max_retries →
  is_rate_limit x = false →
  run api_call w = (Raised x, w1) →
  loop (S fuel) st w
  = Some (Raised x, w1, [Invoke (target api_call) (Some x)]).
Proof.
  intros Hlt Hx Hrun. enter_loop. rewrite Hrun.
  destruct x; try discriminate Hx; reflexivity.
Qed.

(** The rate-limited attempt that reaches the bound. *)
Lemma retry_loop_exhausted (fuel : nat) (st : RetryState) (w w1 : W)
    (e : RateLimitErr) :
  retry_count st < max_retries →
  max_retries ≤ retry_count st + 1 →
  run api_call w = (Raised (RateLimitError e), w1) →
  loop (S fuel) st w
  = Some (Raised (RateLimitError e), w1,
          [Invoke (target api_call) (Some (RateLimitError e))]).
Proof.
  intros Hlt Hge Hrun. enter_loop. rewrite Hrun.
  cbn [error_of].
  destruct (Z.geb_spec (retry_count st + 1) max_retries); [|lia].
  reflexivity.
Qed.

(** A rate-limited attempt below the bound, in full: [sleep] is called on
    the computed wait; if it refuses the wait its error leaves the loop,
    otherwise the wait passes and the loop goes on with the next state. *)
Lemma retry_loop_step (fuel : nat) (st : RetryState) (w w1 : W)
    (e : RateLimitErr) :
  retry_count st + 1 < max_retries →
  run api_call w = (Raised (RateLimitError e), w1) →
  loop (S fuel) st w
  = match refuses (wait_time float (backoff st) e) with
    | Some x =>
        Some (Raised (exn_of_sleep_error x), w1,
              [Invoke (target api_call) (Some (RateLimitError e))])
    | None =>
        after [Invoke (target api_call) (Some (RateLimitError e));
               Sleep (wait_time float (backoff st) e)]
          (loop fuel (retried st))
          (elapse (wait_time float (backoff st) e) w1)
    end.
Proof.
  intros Hlt Hrun. enter_loop. rewrite Hrun.
  cbn [error_of].
  destruct (Z.geb_spec (retry_count st + 1) max_retries); [lia|].
  unfold after, sleep, retried.
  destruct (refuses (wait_time float (backoff st) e)); [reflexivity|].
  destruct (retry_loop _ _ _ _ _ _ _ _) as [[[o w2] t]|]; reflexivity.
Qed.

(** The same attempt when [sleep] accepts the wait. *)
Lemma retry_loop_retry (fuel : nat) (st : RetryState) (w w1 : W)
    (e : RateLimitErr) :
  retry_count st + 1 < max_retries →
  run api_call w = (Raised (RateLimitError e), w1) →
  refuses (wait_time float (backoff st) e) = None →
  loop (S fuel) st w
  = after [Invoke (target api_call) (Some (RateLimitError e));
           Sleep (wait_time float (backoff st) e)]
      (loop fuel (retried st))
      (elapse (wait_time float (backoff st) e) w1).
Proof.
  intros Hlt Hrun Hsleep.
  rewrite (retry_loop_step fuel st w w1 e Hlt Hrun), Hsleep. reflexivity.
Qed.

(** The same attempt when [sleep] refuses the wait: its error is raised
    after that one invocation, and no time has passed. *)
Lemma retry_loop_refused (fuel : nat) (st : RetryState) (w w1 : W)
    (e : RateLimitErr) (x : sleep_error) :
  retry_count st + 1 < max_retries →
  run api_call w = (Raised (RateLimitError e), w1) →
  refuses (wait_time float (backoff st) e) = Some x →
  loop (S fuel) st w
  = Some (Raised (exn_of_sleep_error x), w1,
          [Invoke (target api_call) (Some (RateLimitError e))]).
Proof.
  intros Hlt Hrun Hsleep.
  rewrite (retry_loop_step fuel st w w1 e Hlt Hrun), Hsleep. reflexivity.
Qed.

(** The fuel [with_retry] gives the loop is enough: the model returns or
    raises, it never runs dry. *)
Lemma retry_loop_total (fuel : nat) :
  ∀ (st : RetryState) (w : W),
    (Z.to_nat (max_retries - retry_count st) ≤ fuel)%nat →
    is_Some (loop fuel st w).
Proof.
  induction fuel as [|fuel IH]; intros st w Hfuel.
  - rewrite retry_loop_exit by lia. eauto.
  - destruct (Z.lt_ge_cases (retry_count st) max_retries) as [Hlt|Hge];
      [|rewrite retry_loop_exit by lia; eauto].
    destruct (run api_call w) as [[r|x] w1] eqn:Hrun.
    + erewrite retry_loop_returned by eassumption. eauto.
    + destruct (is_rate_limit x) eqn:Hx;
        [|erewrite retry_loop_other by eassumption; eauto].
      destruct x as [e| | | | | |]; try discriminate Hx.
      destruct (Z.lt_ge_cases (retry_count st + 1) max_retries)
        as [Hmore|Hlast].
      * destruct (refuses (wait_time float (backoff st) e)) eqn:Hsleep;
          [erewrite retry_loop_refused by eassumption; eauto|].
        erewrite retry_loop_retry by eassumption.
        unfold after.
        destruct (IH (retried st)
                    (elapse (wait_time float (backoff st) e) w1))
          as [[[o w2] t] Hrest]; [simpl; lia|].
        rewrite Hrest. eauto.
      * erewrite retry_loop_exhausted by eassumption. eauto.
Qed.

Lemma with_retry_total (w : W) :
  is_Some (with_retry float elapse refuses api_call max_retries w).
Proof. apply retry_loop_total. simpl. lia. Qed.

(** Every invocation in a trace of the loop is of the wrapped call. *)
Lemma retry_loop_target (fuel : nat) :
  ∀ (st : RetryState) (w w' : W) o (t : list (event F)),
    loop fuel st w = Some (o, w', t) →
    ∀ p err, Invoke p err ∈ t → p = target api_call.
Proof.
  induction fuel as [|fuel IH]; intros st w w' o t Hloop p err Hin.
  - destruct (Z.lt_ge_cases (retry_count st) max_retries) as [Hlt|Hge].
    + cbn [retry_loop] in Hloop.
      destruct (Z.ltb_spec (retry_count st) max_retries); [|lia].
      discriminate Hloop.
    + rewrite retry_loop_exit in Hloop by lia.
      injection Hloop as <- <- <-. inversion Hin.
  - destruct (Z.lt_ge_cases (retry_count st) max_retries) as [Hlt|Hge];
      [|rewrite retry_loop_exit in Hloop by lia;
        injection Hloop as <- <- <-; inversion Hin].
    destruct (run api_call w) as [[r|x] w1] eqn:Hrun.
    + erewrite retry_loop_returned in Hloop by eassumption.
      injection Hloop as <- <- <-.
      apply list_elem_of_singleton in Hin. congruence.
    + destruct (is_rate_limit x) eqn:Hx.
      * destruct x as [e| | | | | |]; try discriminate Hx.
        destruct (Z.lt_ge_cases (retry_count st + 1) max_retries)
          as [Hmore|Hlast].
        -- destruct (refuses (wait_time float (backoff st) e)) eqn:Hsleep.
           { erewrite retry_loop_refused in Hloop by eassumption.
             injection Hloop as <- <- <-.
             apply list_elem_of_singleton in Hin. congruence. }
           erewrite retry_loop_retry in Hloop by eassumption.
           unfold after in Hloop.
           destruct (loop fuel (retried st) _) as [[[o2 w2] t2]|] eqn:Hrest;
             [|discriminate Hloop].
           injection Hloop as <- <- <-.
           change ([?a; ?b] ++ t2) with (a :: b :: t2) in Hin.
           rewrite !elem_of_cons in Hin.
           destruct Hin as [Heq|[Heq|Hin]];
             [congruence | discriminate Heq | eauto].
        -- erewrite retry_loop_exhausted in Hloop by eassumption.
           injection Hloop as <- <- <-.
           apply list_elem_of_singleton in Hin. congruence.
      * erewrite retry_loop_other in Hloop by eassumption.
        injection Hloop as <- <- <-.
        apply list_elem_of_singleton in Hin. congruence.
Qed.

(** Along the loop the trace keeps the pace of the backoff sequence. *)
Lemma retry_loop_paced (fuel : nat) :
  ∀ (st : RetryState) (w w' : W) o (t : list (event F)) (k : nat),
    loop fuel st w = Some (o, w', t) →
    backoff st = backoff_at k →
    paced float k t.
Proof.
  induction fuel as [|fuel IH]; intros st w w' o t k Hloop Hk.
  - destruct (Z.lt_ge_cases (retry_count st) max_retries) as [Hlt|Hge].
    + cbn [retry_loop] in Hloop.
      destruct (Z.ltb_spec (retry_count st) max_retries); [|lia].
      discriminate Hloop.
    + rewrite retry_loop_exit in Hloop by lia.
      injection Hloop as <- <- <-. exact I.
  - destruct (Z.lt_ge_cases (retry_count st) max_retries) as [Hlt|Hge];
      [|rewrite retry_loop_exit in Hloop by lia;
        injection Hloop as <- <- <-; exact I].
    destruct (run api_call w) as [[r|x] w1] eqn:Hrun.
    + erewrite retry_loop_returned in Hloop by eassumption.
      injection Hloop as <- <- <-. exact I.
    + destruct (is_rate_limit x) eqn:Hx.
      * destruct x as [e| | | | | |]; try discriminate Hx.
        destruct (Z.lt_ge_cases (retry_count st + 1) max_retries)
          as [Hmore|Hlast].
        -- destruct (refuses (wait_time float (backoff st) e)) eqn:Hsleep.
           { erewrite retry_loop_refused in Hloop by eassumption.
             injection Hloop as <- <- <-. exact I. }
           erewrite retry_loop_retry in Hloop by eassumption.
           unfold after in Hloop.
           destruct (loop fuel (retried st) _) as [[[o2 w2] t2]|] eqn:Hrest;
             [|discriminate Hloop].
           injection Hloop as <- <- <-.
           cbn [app paced]. split; [rewrite Hk; reflexivity|].
           eapply IH; [exact Hrest|].
           simpl. rewrite Hk. reflexivity.
        -- erewrite retry_loop_exhausted in Hloop by eassumption.
           injection Hloop as <- <- <-. exact I.
      * erewrite retry_loop_other in Hloop by eassumption.
        injection Hloop as <- <- <-. destruct x; exact I.
Qed.

(** Under a provider that always rate-limits, the loop invokes it once per
    remaining attempt, sleeps between attempts and raises the error of the
    last attempt. *)
Lemma retry_loop_always_limited (fuel : nat) :
  (∀ w, ∃ e w1, run api_call w = (Raised (RateLimitError e), w1)) →
  (∀ w e w1 b,
     1 ≤ b ≤ 60 →
     run api_call w = (Raised (RateLimitError e), w1) →
     refuses (wait_time float b e) = None) →
  ∀ (st : RetryState) (w : W),
    1 ≤ backoff st ≤ 60 →
    retry_count st < max_retries →
    (Z.to_nat (max_retries - retry_count st) ≤ fuel)%nat →
    ∃ e w1 (t : list (event F)),
      loop fuel st w = Some (Raised (RateLimitError e), w1, t)
      ∧ Z.of_nat (invocations t) = max_retries - retry_count st
      ∧ Z.of_nat (length (sleeps t)) = max_retries - retry_count st - 1
      ∧ last t = Some (Invoke (target api_call) (Some (RateLimitError e))).
Proof.
  intros Hlimited Haccept.
  induction fuel as [|fuel IH]; intros st w Hbackoff Hlt Hfuel; [lia|].
  destruct (Hlimited w) as (e & w1 & Hrun).
  destruct (Z.lt_ge_cases (retry_count st + 1) max_retries)
    as [Hmore|Hlast].
  - erewrite retry_loop_retry by eauto.
    destruct (IH (retried st) (elapse (wait_time float (backoff st) e) w1))
      as (e' & w2 & t & Hrest & Hcalls & Hsleeps & Hend);
      [unfold retried, next_backoff; simpl; lia | simpl; lia | simpl; lia |].
    exists e', w2, (Invoke (target api_call) (Some (RateLimitError e))
                    :: Sleep (wait_time float (backoff st) e) :: t).
    unfold after. rewrite Hrest. simpl in Hcalls, Hsleeps.
    split; [reflexivity|].
    split; [cbn [invocations]; lia|].
    split; [cbn [sleeps omap]; simpl length; fold (sleeps t); lia|].
    destruct t as [|ev t]; [discriminate Hend|exact Hend].
  - erewrite retry_loop_exhausted by eassumption.
    exists e, w1, [Invoke (target api_call) (Some (RateLimitError e))].
    split; [reflexivity|].
    repeat split; simpl; lia.
Qed.
End RetryFacts.

(** The backoff sequence starts at 1, doubles up to the cap of 60 and never
    decreases. *)
Lemma backoff_at_succ (k : nat) :
  backoff_at (S k) = Z.min (backoff_at k * 2) 60.
Proof. reflexivity. Qed.

Lemma backoff_at_bounds (k : nat) : 1 ≤ backoff_at k ≤ 60.
Proof.
  induction k as [|k IH]; [cbv; split; discriminate|].
  rewrite backoff_at_succ. lia.
Qed.


Lemma backoff_at_closed (k : nat) : backoff_at k = Z.min (2 ^ Z.of_nat k) 60.
Proof.
  induction k as [|k IH]; [reflexivity|].
  rewrite backoff_at_succ, IH, Nat2Z.inj_succ, Z.pow_succ_r by lia.
  lia.
Qed.

(** C2, as stated, fails.  [sleep] is called outside the inner [try]: a
    provider that always answers with a rate-limit error whose [retry-after]
    is [-1] is invoked once, [float] reads [-1.0], [sleep] refuses it and its
    [ValueError] leaves [with_retry], whatever [max_retries] is.  And where
    the bound is reached, what is raised is the provider's own rate-limit
    error, re-raised as it is: there is no error of another kind wrapping
    it. *)
Lemma with_retry_sleep_refusal_ends_retries :
  (∀ w, run negative_limited w
        = (Raised (RateLimitError negative_error), S w))
  ∧ with_retry float_signed elapse_none refuses_negative negative_limited
      3 0%nat
    = Some (Raised (ValueError "sleep length must be non-negative"), 1%nat,
            [Invoke Embeddings (Some (RateLimitError negative_error))])
  ∧ ∃ t : list (event Q),
      with_retry float_signed elapse_none refuses_negative always_limited
        3 0%nat
      = Some (Raised (rate_limited ∅), 3%nat, t)
      ∧ is_rate_limit (rate_limited ∅) = true.
Proof.
  split; [intros w; reflexivity|].
  split; [reflexivity|].
  eexists. split; reflexivity.
Qed.

(** C2, amended: when every invocation of the wrapped call raises a
    rate-limit error, [sleep] accepts every wait computed from those errors
    and [max_retries] is at least 1, [with_retry] invokes the call exactly
    [max_retries] times, sleeps between consecutive attempts only, and then
    raises; what it raises is the rate-limit error of the last invocation
    itself, so no rate-limit error surfaces before the bound is reached. *)
Theorem with_retry_exhausts_after_max_retries
    {F W R : Type} (float : string → option F) (elapse : number F → W → W)
    (refuses : number F → option sleep_error)
    (api_call : Callable W R) (max_retries : Z) (w : W) :
  (∀ w, ∃ e w1, run api_call w = (Raised (RateLimitError e), w1)) →
  (∀ w e w1 b,
     1 ≤ b ≤ 60 →
     run api_call w = (Raised (RateLimitError e), w1) →
     refuses (wait_time float b e) = None) →
  1 ≤ max_retries →
  ∃ e w1 (t : list (event F)),
    with_retry float elapse refuses api_call max_retries w
    = Some (Raised (RateLimitError e), w1, t)
    ∧ Z.of_nat (invocations t) = max_retries
    ∧ Z.of_nat (length (sleeps t)) = max_retries - 1
    ∧ last t = Some (Invoke (target api_call) (Some (RateLimitError e))).
Proof.
  intros Hlimited Haccept Hmax.
  destruct (retry_loop_always_limited float elapse refuses api_call max_retries
              (Z.to_nat max_retries) Hlimited Haccept initial w)
    as (e & w1 & t & Hrun & Hcalls & Hsleeps & Hend);
    [simpl; lia | simpl; lia | simpl; lia |].
  exists e, w1, t. simpl in Hcalls, Hsleeps.
  repeat split; [exact Hrun | lia | lia | exact Hend].
Qed.

Lemma with_retry_exhausts_after_max_retries_witness :
  ∃ e w1 (t : list (event Q)),
    with_retry float_digits elapse_none refuses_negative always_limited 3 0%nat
    = Some (Raised (RateLimitError e), w1, t)
    ∧ Z.of_nat (invocations t) = 3
    ∧ Z.of_nat (length (sleeps t)) = 3 - 1
    ∧ last t = Some (Invoke (target always_limited) (Some (RateLimitError e))).
Proof.
  apply (with_retry_exhausts_after_max_retries
           float_digits elapse_none refuses_negative always_limited 3 0%nat).
  - intros w. eexists _, _. reflexivity.
  - intros w e w1 b Hb [= <- _].
    change (refuses_negative (PyInt b) = None).
    unfold refuses_negative.
    destruct (Z.ltb_spec b 0); [lia | reflexivity].
  - lia.
Defined.

(** C9: with [max_retries] at most 0 the loop body is never entered:
    [with_retry] returns [None], the wrapped call is not invoked (the trace
    is empty and the world unchanged) and nothing is raised. *)
Theorem with_retry_nonpositive_bound_returns_none
    {F W R : Type} (float : string → option F) (elapse : number F → W → W)
    (refuses : number F → option sleep_error)
    (api_call : Callable W R) (max_retries : Z) (w : W) :
  max_retries ≤ 0 →
  with_retry float elapse refuses api_call max_retries w
  = Some (Returned None, w, []).
Proof.
  intros Hmax. unfold with_retry.
  apply retry_loop_exit. simpl. exact Hmax.
Qed.

Lemma with_retry_nonpositive_bound_returns_none_witness :
  with_retry float_digits elapse_none refuses_negative always_limited 0 0%nat
  = Some (Returned None, 0%nat, [])
  ∧ with_retry float_digits elapse_none refuses_negative thrice_limited (-2) 5%nat
    = Some (Returned None, 5%nat, []).
Proof.
  split.
  - apply (with_retry_nonpositive_bound_returns_none
             float_digits elapse_none refuses_negative always_limited 0 0%nat). lia.
  - apply (with_retry_nonpositive_bound_returns_none
             float_digits elapse_none refuses_negative thrice_limited (-2) 5%nat). lia.
Defined.

(** C4: when an invocation of the wrapped call raises anything that is not a
    rate-limit error, the failure is raised to the caller at once: that
    invocation is the last event, there is no sleep and no further
    invocation.  This holds for the first attempt of [with_retry] and for an
    attempt of the loop in any state, however far the retry count is from
    the bound. *)
Theorem with_retry_propagates_other_failures
    {F W R : Type} (float : string → option F) (elapse : number F → W → W)
    (refuses : number F → option sleep_error)
    (api_call : Callable W R) (max_retries : Z) (w w1 : W) (x : exn) :
  is_rate_limit x = false →
  run api_call w = (Raised x, w1) →
  (1 ≤ max_retries →
   with_retry float elapse refuses api_call max_retries w
   = Some (Raised x, w1, [Invoke (target api_call) (Some x)]))
  ∧ (∀ (fuel : nat) (st : RetryState),
       retry_count st < max_retries →
       retry_loop float elapse refuses (S fuel) api_call max_retries st w
       = Some (Raised x, w1, [Invoke (target api_call) (Some x)])).
Proof.
  intros Hx Hrun. split.
  - intros Hmax. unfold with_retry.
    destruct (Z.to_nat max_retries) as [|fuel] eqn:Hfuel; [lia|].
    apply retry_loop_other; [simpl; lia | exact Hx | exact Hrun].
  - intros fuel st Hlt.
    apply retry_loop_other; assumption.
Qed.

Lemma with_retry_propagates_other_failures_witness :
  with_retry float_digits elapse_none refuses_negative refused 10 0%nat
  = Some (Raised (Exception "Connection error."), 1%nat,
          [Invoke ChatCompletions (Some (Exception "Connection error."))]).
Proof.
  apply (proj1 (with_retry_propagates_other_failures
                  float_digits elapse_none refuses_negative refused 10 0%nat 1%nat
                  (Exception "Connection error.") eq_refl eq_refl)).
  lia.
Defined.

(** The wait read from the headers, case by case. *)
Section WaitFacts.
Context {F : Type}.
Variable float : string → option F.
Variables (backoff : Z) (e : RateLimitErr).




Lemma wait_time_unparsable (r : Response) (v : string) :
  response e = Some r →
  headers r !! "retry-after" = Some v
  ∨ headers r !! "retry-after" = None
    ∧ headers r !! "x-ratelimit-reset-after" = Some v →
  float v = None →
  wait_time float backoff e = PyInt backoff.
Proof.
  intros Hr [Hv|[Hnone Hv]] Hf; unfold wait_time, read_wait;
    rewrite Hr; [|rewrite Hnone]; rewrite Hv, Hf; reflexivity.
Qed.
End WaitFacts.



(** C10, as stated, fails for one of the two headers it names: an error that
    carries a numeric [retry-after] beside an [x-ratelimit-reset-after] that
    is not a number has a header that cannot be parsed, yet the wait is the
    [retry-after] value and not the backoff, because the reset header is
    never read. *)
Lemma with_retry_unread_reset_header :
  response mixed_error = Some {| headers := mixed_headers |}
  ∧ mixed_headers !! "x-ratelimit-reset-after" = Some "soon"
  ∧ float_digits "soon" = None
  ∧ wait_time float_digits 1 mixed_error = PyFloat 2%Q
  ∧ wait_time float_digits 1 mixed_error ≠ PyInt 1
  ∧ with_retry float_digits elapse_none refuses_negative mixed_limit 10 0%nat
    = Some (Returned (Some "ok"), 2%nat,
            [Invoke Embeddings (Some (RateLimitError mixed_error));
             Sleep (PyFloat 2%Q);
             Invoke Embeddings None]).
Proof.
  do 4 (split; [reflexivity|]).
  split; [discriminate | reflexivity].
Qed.

(** C10, amended: when the header that [with_retry] reads, which is
    [retry-after] if the error has one and [x-ratelimit-reset-after]
    otherwise, holds a value that is not a number, nothing is raised: the
    wait is the current backoff, and after sleeping that long the loop goes
    on with the next attempt as after any other rate-limited attempt.  The
    step is given in full: the one way out is [sleep] refusing the backoff
    itself, an integer that is from 1 to 60 in every run of [with_retry]. *)
Theorem with_retry_unparsable_header_falls_back
    {F W R : Type} (float : string → option F) (elapse : number F → W → W)
    (refuses : number F → option sleep_error)
    (api_call : Callable W R) (max_retries : Z)
    (fuel : nat) (st : RetryState) (w w1 : W) (e : RateLimitErr)
    (r : Response) (v : string) :
  retry_count st + 1 < max_retries →
  run api_call w = (Raised (RateLimitError e), w1) →
  response e = Some r →
  headers r !! "retry-after" = Some v
  ∨ headers r !! "retry-after" = None
    ∧ headers r !! "x-ratelimit-reset-after" = Some v →
  float v = None →
  wait_time float (backoff st) e = PyInt (backoff st)
  ∧ retry_loop float elapse refuses (S fuel) api_call max_retries st w
    = match refuses (PyInt (backoff st)) with
      | Some x =>
          Some (Raised (exn_of_sleep_error x), w1,
                [Invoke (target api_call) (Some (RateLimitError e))])
      | None =>
          after [Invoke (target api_call) (Some (RateLimitError e));
                 Sleep (PyInt (backoff st))]
            (retry_loop float elapse refuses fuel api_call max_retries
               (retried st))
            (elapse (PyInt (backoff st)) w1)
      end.
Proof.
  intros Hmore Hrun Hr Hv Hf.
  pose proof (wait_time_unparsable float (backoff st) e r v Hr Hv Hf) as Hwait.
  split; [exact Hwait|].
  rewrite <- Hwait.
  apply (retry_loop_step float elapse refuses api_call max_retries);
    assumption.
Qed.

Lemma with_retry_unparsable_header_falls_back_witness :
  wait_time float_digits (backoff initial) dated_error = PyInt 1
  ∧ with_retry float_digits elapse_none refuses_negative dated_limit 10 0%nat
    = Some (Returned (Some "ok"), 2%nat,
            [Invoke Embeddings (Some (RateLimitError dated_error));
             Sleep (PyInt 1);
             Invoke Embeddings None]).
Proof.
  split; [|reflexivity].
  apply (with_retry_unparsable_header_falls_back
           float_digits elapse_none refuses_negative dated_limit 10 9%nat
           initial 0%nat 1%nat dated_error
           {| headers :=
                {[ "retry-after" := "Wed, 21 Oct 2015 07:28:00 GMT" ]} |}
           "Wed, 21 Oct 2015 07:28:00 GMT").
  - simpl. lia.
  - reflexivity.
  - reflexivity.
  - left. reflexivity.
  - reflexivity.
Defined.

(** ** The HTTP route *)

Section RouteFacts.
Context {F W : Type}.
Variable float : string → option F.
Variable elapse : number F → W → W.
Variable refuses : number F → option sleep_error.
Variable env : @Env F W.

(** A computation that returned passes its value, world and trace on. *)
Lemma bind_returned {A B} (m : M F W A) (k : A → M F W B)
    (w w1 : W) (a : A) (t1 : list (event F)) :
  m w = Some (Returned a, w1, t1) →
  (m ≫= k) w = after t1 (k a) w1.
Proof.
  intros Hm. unfold mbind, M_bind, bind, after. rewrite Hm. reflexivity.
Qed.

Lemma invoke_returned {R} (c : Callable W R) (w w1 : W) (r : R) :
  run c w = (Returned r, w1) →
  invoke (F:=F) c w = Some (Returned r, w1, [Invoke (target c) None]).
Proof. intros Hrun. unfold invoke. rewrite Hrun. reflexivity. Qed.

(** What [answer] does once the store has been queried and has returned
    no document. *)
Lemma answer_no_documents (prompt : string) (enc : Encoding)
    (w w1 w2 w3 : W) (t1 : list (event F))
    (resp : CreateEmbeddingResponse) (item : Embedding)
    (rest : list Embedding)
    (collection : Collection) (query_result : QueryResult) :
  make_encoder env = Returned enc →
  with_retry float elapse refuses
    {| target := Embeddings;
       run := embeddings_create env prompt "text-embedding-3-small" |}
    10 w
  = Some (Returned (Some resp), w1, t1) →
  data resp = item :: rest →
  get_or_create_collection env "diary-rag-experiment" w1
  = (Returned collection, w2) →
  query collection [embedding item] 40 w2 = (Returned query_result, w3) →
  no_documents query_result = true →
  answer float elapse refuses env prompt w
  = Some (Returned ("No relevant diary entries found.", 200), w3,
          t1 ++ [Invoke VectorStore None; Invoke VectorStore None]).
Proof.
  intros Henc Hembed Hdata Hcoll Hquery Hnone.
  unfold answer, mbind, M_bind, bind, lift.
  rewrite Henc, Hembed.
  cbn [attribute_of ret]. rewrite Hdata.
  cbn [first_item ret].
  unfold invoke. cbn [run target].
  rewrite Hcoll. rewrite Hquery. rewrite Hnone.
  cbn [ret error_of app]. reflexivity.
Qed.

(** The route always produces a response: the model never runs dry, and
    every exception of the pipeline is turned into a 500. *)
Lemma bind_total {A B} (m : M F W A) (k : A → M F W B) :
  (∀ w, is_Some (m w)) →
  (∀ a w, is_Some (k a w)) →
  ∀ w, is_Some ((m ≫= k) w).
Proof.
  intros Hm Hk w. unfold mbind, M_bind, bind.
  destruct (Hm w) as [[[[a|e] w1] t1] ->]; [|eauto].
  destruct (Hk a w1) as [[[o w2] t2] ->]. eauto.
Qed.

Lemma docs_of_total (docs_meta : list (gmap string string)) :
  ∀ w, is_Some (docs_of (F:=F) (W:=W) docs_meta w).
Proof.
  induction docs_meta as [|m rest IH]; intros w; [cbn; eauto|].
  cbn [docs_of]. revert w.
  apply bind_total; [intros w; unfold getitem; destruct (m !! _); cbn; eauto|].
  intros date. apply bind_total;
    [intros w; unfold getitem; destruct (m !! _); cbn; eauto|].
  intros content. apply bind_total; [exact IH|].
  intros docs w. cbn. eauto.
Qed.

Lemma answer_total (prompt : string) :
  ∀ w, is_Some (answer float elapse refuses env prompt w).
Proof.
  unfold answer.
  apply bind_total; [intros w; unfold lift; eauto|]. intros enc.
  apply bind_total; [apply with_retry_total|]. intros embedding_response.
  apply bind_total;
    [intros w; destruct embedding_response; cbn; eauto|].
  intros resp.
  apply bind_total; [intros w; destruct (data resp); cbn; eauto|].
  intros item.
  apply bind_total;
    [intros w; unfold invoke; destruct (run _ w); eauto|].
  intros collection.
  apply bind_total;
    [intros w; unfold invoke; destruct (run _ w); eauto|].
  intros query_result.
  destruct (no_documents query_result); [intros w; cbn; eauto|].
  apply bind_total;
    [intros w; destruct (default [] (metadatas query_result)); cbn; eauto|].
  intros docs_meta.
  apply bind_total; [apply docs_of_total|]. intros docs.
  apply bind_total; [intros w; cbn; eauto|]. intros date.
  apply bind_total; [apply with_retry_total|]. intros completion.
  apply bind_total; [intros w; destruct completion; cbn; eauto|].
  intros resp'.
  apply bind_total; [intros w; destruct (choices resp'); cbn; eauto|].
  intros choice w.
  destruct (reply_content (choice_message choice)); cbn; eauto.
Qed.

Lemma mainroute_total (prompt : option string) (w : W) :
  ∃ body status w' t,
    mainroute float elapse refuses env prompt w
    = Some (Returned (body, status), w', t).
Proof.
  unfold mainroute.
  destruct (missing prompt); [cbn; eauto 10|].
  unfold try_except.
  destruct (answer_total (default "" prompt) w)
    as [[[[[body status]|e] w1] t1] Hanswer]; rewrite Hanswer;
    cbn; eauto 10.
Qed.
End RouteFacts.

(** C8: for a request whose [prompt] parameter is missing or empty, the
    route answers 400 with the instruction to supply a prompt; the trace is
    empty, so neither the embedding provider, nor the vector store, nor the
    completion provider is called, and the world is left as it was. *)
Theorem mainroute_missing_prompt
    {F W : Type} (float : string → option F) (elapse : number F → W → W)
    (refuses : number F → option sleep_error)
    (env : @Env F W) (prompt : option string) (w : W) :
  prompt = None ∨ prompt = Some "" →
  mainroute float elapse refuses env prompt w
  = Some (Returned
            ("Please provide a prompt using the 'prompt' query parameter.",
             400),
          w, []).
Proof. intros [-> | ->]; reflexivity. Qed.

Lemma mainroute_missing_prompt_witness :
  mainroute float_digits elapse_none refuses_negative diary_env None 0%nat
  = Some (Returned
            ("Please provide a prompt using the 'prompt' query parameter.",
             400),
          0%nat, [])
  ∧ mainroute float_digits elapse_none refuses_negative diary_env (Some "") 0%nat
    = Some (Returned
              ("Please provide a prompt using the 'prompt' query parameter.",
               400),
            0%nat, []).
Proof.
  split.
  - apply (mainroute_missing_prompt
             float_digits elapse_none refuses_negative diary_env None 0%nat).
    left. reflexivity.
  - apply (mainroute_missing_prompt
             float_digits elapse_none refuses_negative diary_env (Some "") 0%nat).
    right. reflexivity.
Defined.

(** C7: when a request with a prompt gets as far as the vector store (the
    tokenizer was created, the embedding call returned a vector through
    [with_retry], the collection was opened) and the query returns no
    document, the route answers 200 with the fixed text; the trace is that
    of the embedding call followed by the two store invocations, and the
    completion provider is not invoked. *)
Theorem mainroute_no_documents
    {F W : Type} (float : string → option F) (elapse : number F → W → W)
    (refuses : number F → option sleep_error)
    (env : @Env F W) (prompt : string) (enc : Encoding)
    (w w1 w2 w3 : W) (t1 : list (event F))
    (resp : CreateEmbeddingResponse) (item : Embedding)
    (rest : list Embedding)
    (collection : Collection) (query_result : QueryResult) :
  prompt ≠ "" →
  make_encoder env = Returned enc →
  with_retry float elapse refuses
    {| target := Embeddings;
       run := embeddings_create env prompt "text-embedding-3-small" |}
    10 w
  = Some (Returned (Some resp), w1, t1) →
  data resp = item :: rest →
  get_or_create_collection env "diary-rag-experiment" w1
  = (Returned collection, w2) →
  query collection [embedding item] 40 w2 = (Returned query_result, w3) →
  no_documents query_result = true →
  ∃ t : list (event F),
    mainroute float elapse refuses env (Some prompt) w
    = Some (Returned ("No relevant diary entries found.", 200), w3, t)
    ∧ t = t1 ++ [Invoke VectorStore None; Invoke VectorStore None]
    ∧ ¬ invoked ChatCompletions t.
Proof.
  intros Hprompt Henc Hembed Hdata Hcoll Hquery Hnone.
  exists (t1 ++ [Invoke VectorStore None; Invoke VectorStore None]).
  split; [|split; [reflexivity|]].
  - unfold mainroute.
    destruct prompt as [|c prompt]; [congruence|].
    cbn [missing default]. unfold try_except.
    erewrite answer_no_documents by eassumption. reflexivity.
  - intros [err Hin]. apply elem_of_app in Hin as [Hin|Hin].
    + eapply retry_loop_target in Hin; [|exact Hembed].
      discriminate Hin.
    + rewrite !elem_of_cons in Hin.
      destruct Hin as [Heq|[Heq|Hin]];
        [discriminate Heq | discriminate Heq | inversion Hin].
Qed.

Lemma mainroute_no_documents_witness :
  ∃ t : list (event Q),
    mainroute float_digits elapse_none refuses_negative empty_env (Some "hi") 0%nat
    = Some (Returned ("No relevant diary entries found.", 200), 3%nat, t)
    ∧ t = [Invoke Embeddings None]
          ++ [Invoke VectorStore None; Invoke VectorStore None]
    ∧ ¬ invoked ChatCompletions t.
Proof.
  apply (mainroute_no_documents float_digits elapse_none refuses_negative empty_env "hi"
           char_enc 0%nat 1%nat 2%nat 3%nat [Invoke Embeddings None]
           {| data := [ {| embedding := [1%Q; 0%Q] |} ] |}
           {| embedding := [1%Q; 0%Q] |} [] empty_collection
           {| metadatas := Some [[]] |}).
  - discriminate.
  - reflexivity.
  - reflexivity.
  - reflexivity.
  - reflexivity.
  - reflexivity.
  - reflexivity.
Defined.

(** The scenario of three retrieved entries that fit the budget: all three
    reach the completion provider, in the order retrieved, and the provider
    is invoked once. *)
Example mainroute_three_documents :
  mainroute float_digits elapse_none refuses_negative diary_env
    (Some "What did I do on my birthday?") 0%nat
  = Some (Returned
            ("Here are relevant diary entries:" +:+ LF
             +:+ "2025-03-01: Cake with Ana." +:+ LF
             +:+ "2025-03-02: Rain." +:+ LF
             +:+ "2024-03-01: Hiking." +:+ LF +:+ LF
             +:+ "User query: What did I do on my birthday?",
             200),
          4%nat,
          [Invoke Embeddings None; Invoke VectorStore None;
           Invoke VectorStore None; Invoke ChatCompletions None]).
Proof. vm_compute. reflexivity. Qed.

(** * Further properties *)

(** ** Context assembler: what the greedy loop selects *)

Section SelectionFacts.
Variable enc : Encoding.

Lemma tokens_of_entries_take_le (l : list string) (m : nat) :
  tokens_of_entries enc (take m l) ≤ tokens_of_entries enc l.
Proof.
  rewrite <- (take_drop m l) at 2. rewrite tokens_of_entries_app.
  pose proof (tokens_of_entries_nonneg enc (drop m l)). lia.
Qed.

(** Prefix sums grow with the length of the prefix. *)
Lemma tokens_of_rendered_prefix_mono (docs : list (string * string))
    (m1 m2 : nat) :
  (m1 ≤ m2)%nat →
  tokens_of_entries enc (render <$> take m1 docs)
  ≤ tokens_of_entries enc (render <$> take m2 docs).
Proof.
  intros Hle.
  replace (take m1 docs) with (take m1 (take m2 docs))
    by (rewrite take_take; f_equal; lia).
  rewrite fmap_take. apply tokens_of_entries_take_le.
Qed.

Lemma tokens_of_rendered_prefix_succ (docs : list (string * string))
    (n : nat) (doc : string * string) :
  docs !! n = Some doc →
  tokens_of_entries enc (render <$> take (S n) docs)
  = tokens_of_entries enc (render <$> take n docs)
    + token_count (render doc) enc.
Proof.
  intros Hdoc. erewrite take_S_r by exact Hdoc.
  rewrite fmap_app, tokens_of_entries_app. simpl. lia.
Qed.

(** The number of documents selected, with the two facts that pin it down. *)
Lemma select_documents_length (docs : list (string * string)) (budget : Z) :
  let n := length (select_documents docs enc budget) in
  (n ≤ length docs)%nat
  ∧ select_documents docs enc budget = render <$> take n docs
  ∧ (0 ≤ budget →
     tokens_of_entries enc (render <$> take n docs) ≤ budget)
  ∧ ((n < length docs)%nat →
     tokens_of_entries enc (render <$> take (S n) docs) > budget).
Proof.
  destruct (select_documents_prefix enc budget docs)
    as (n & Hn & Heq & Hsum & Hstop).
  assert (Hlen : length (select_documents docs enc budget) = n).
  { rewrite Heq, length_fmap, length_take. lia. }
  cbv zeta. rewrite Hlen.
  repeat split; [exact Hn | exact Heq | exact Hsum |].
  intros Hlt.
  destruct (lookup_lt_is_Some_2 docs n Hlt) as [doc Hdoc].
  rewrite (tokens_of_rendered_prefix_succ docs n doc Hdoc).
  apply Hstop, Hdoc.
Qed.
End SelectionFacts.

(** X1: when the renderings of all the documents together cost no more
    tokens than the budget, nothing is truncated: every document is selected
    and the block is the join of all the renderings, in order. *)
Theorem truncate_documents_all_fit
    (docs : list (string * string)) (enc : Encoding) (budget : Z) :
  tokens_of_entries enc (render <$> docs) ≤ budget →
  select_documents docs enc budget = render <$> docs
  ∧ truncate_documents docs enc budget = String.concat LF (render <$> docs).
Proof.
  intros Hfit.
  assert (Hall : select_documents docs enc budget = render <$> docs).
  { destruct (select_documents_length enc docs budget)
      as (Hn & Heq & _ & Hstop).
    set (n := length (select_documents docs enc budget)) in *.
    destruct (decide (n < length docs)%nat) as [Hlt|Hge].
    - specialize (Hstop Hlt).
      pose proof (tokens_of_entries_take_le enc (render <$> docs) (S n))
        as Hle.
      rewrite <- fmap_take in Hle. lia.
    - rewrite Heq, take_ge by lia. reflexivity. }
  split; [exact Hall|].
  unfold truncate_documents. rewrite Hall. reflexivity.
Qed.

Lemma truncate_documents_all_fit_witness :
  tokens_of_entries char_enc (render <$> [("a", "b"); ("c", "d")]) ≤ 8
  ∧ truncate_documents [("a", "b"); ("c", "d")] char_enc 8
    = "a: b" +:+ LF +:+ "c: d".
Proof.
  split; [vm_compute; discriminate|].
  apply (truncate_documents_all_fit [("a", "b"); ("c", "d")] char_enc 8).
  vm_compute. discriminate.
Defined.

(** X2: the selection is the longest prefix that fits.  For a budget that is
    not negative, the first [m] documents are all selected exactly when their
    renderings cost at most the budget; in particular a document that brings
    the total to the budget exactly is kept (the test is a strict [>]). *)
Theorem select_documents_longest_prefix
    (docs : list (string * string)) (enc : Encoding) (budget : Z) (m : nat) :
  0 ≤ budget →
  (m ≤ length docs)%nat →
  (m ≤ length (select_documents docs enc budget))%nat
  ↔ tokens_of_entries enc (render <$> take m docs) ≤ budget.
Proof.
  intros Hbudget Hm.
  destruct (select_documents_length enc docs budget)
    as (Hn & _ & Hsum & Hstop).
  set (n := length (select_documents docs enc budget)) in *.
  split.
  - intros Hle.
    pose proof (tokens_of_rendered_prefix_mono enc docs m n Hle).
    specialize (Hsum Hbudget). lia.
  - intros Hfit.
    destruct (decide (m ≤ n)%nat) as [Hle|Hgt]; [exact Hle|].
    specialize (Hstop ltac:(lia)).
    pose proof (tokens_of_rendered_prefix_mono enc docs (S n) m ltac:(lia)).
    lia.
Qed.

Lemma select_documents_longest_prefix_witness :
  (2 ≤ length (select_documents [("a", "b"); ("c", "d"); ("e", "f")]
                 char_enc 8))%nat
  ∧ ¬ (3 ≤ length (select_documents [("a", "b"); ("c", "d"); ("e", "f")]
                     char_enc 8))%nat.
Proof.
  split.
  - apply (select_documents_longest_prefix
             [("a", "b"); ("c", "d"); ("e", "f")] char_enc 8 2);
      [lia | simpl; lia | vm_compute; discriminate].
  - intros H3.
    apply (select_documents_longest_prefix
             [("a", "b"); ("c", "d"); ("e", "f")] char_enc 8 3) in H3;
      [|lia | simpl; lia].
    vm_compute in H3. apply H3. reflexivity.
Defined.

(** X3: raising the budget never drops a document: the selection under a
    budget is a prefix of the selection under any larger budget. *)
Theorem select_documents_budget_mono
    (docs : list (string * string)) (enc : Encoding) (budget budget' : Z) :
  budget ≤ budget' →
  select_documents docs enc budget
    `prefix_of` select_documents docs enc budget'.
Proof.
  intros Hle.
  destruct (select_documents_length enc docs budget)
    as (Hn & Heq & Hsum & _).
  destruct (select_documents_length enc docs budget')
    as (Hn' & Heq' & _ & Hstop').
  set (n := length (select_documents docs enc budget)) in *.
  set (n' := length (select_documents docs enc budget')) in *.
  destruct (decide (0 ≤ budget)) as [Hpos|Hneg].
  - assert (Hnn : (n ≤ n')%nat).
    { destruct (decide (n ≤ n')%nat) as [Hnn|Hgt]; [exact Hnn|].
      specialize (Hstop' ltac:(lia)). specialize (Hsum Hpos).
      pose proof (tokens_of_rendered_prefix_mono enc docs (S n') n
                    ltac:(lia)).
      lia. }
    rewrite Heq, Heq'.
    replace (take n docs) with (take n (take n' docs))
      by (rewrite take_take; f_equal; lia).
    rewrite fmap_take. apply prefix_take.
  - assert (Hempty : select_documents docs enc budget = []).
    { unfold select_documents. destruct docs as [|doc rest]; [reflexivity|].
      simpl truncate_loop.
      pose proof (token_count_nonneg enc (render doc)).
      destruct (Z.gtb_spec (0 + token_count (render doc) enc) budget);
        [reflexivity | lia]. }
    rewrite Hempty. apply prefix_nil.
Qed.

Lemma select_documents_budget_mono_witness :
  select_documents [("a", "b"); ("c", "d")] char_enc 4
    `prefix_of` select_documents [("a", "b"); ("c", "d")] char_enc 8.
Proof.
  apply (select_documents_budget_mono
           [("a", "b"); ("c", "d")] char_enc 4 8).
  lia.
Defined.

(** ** Retry controller: every run *)

Lemma invocations_last {F : Type} (t : list (event F)) p err :
  last t = Some (Invoke p err) → (1 ≤ invocations t)%nat.
Proof.
  induction t as [|ev t IH]; [discriminate|].
  destruct t as [|ev' t].
  - intros [= ->]. simpl. lia.
  - intros Hlast. specialize (IH Hlast).
    destruct ev; cbn [invocations] in *; lia.
Qed.

Section RunFacts.
Context {F W R : Type}.
Variable float : string → option F.
Variable elapse : number F → W → W.
Variable refuses : number F → option sleep_error.
Variable api_call : Callable W R.
Variable max_retries : Z.

Abbreviation run_loop fuel :=
  (retry_loop float elapse refuses fuel api_call max_retries).

(** What a finished run of the loop looks like, whatever the provider and
    [sleep] do: how many invocations and sleeps it made, and where its result
    comes from. *)
Lemma retry_loop_shape (fuel : nat) :
  ∀ (st : RetryState) (w w' : W) o (t : list (event F)),
    run_loop fuel st w = Some (o, w', t) →
    Z.of_nat (invocations t) ≤ Z.max 0 (max_retries - retry_count st)
    ∧ length (sleeps t) = pred (invocations t)
    ∧ match o with
      | Returned None => t = [] ∧ w' = w ∧ max_retries ≤ retry_count st
      | Returned (Some r) =>
          last t = Some (Invoke (target api_call) None)
          ∧ ∃ w0, run api_call w0 = (Returned r, w')
      | Raised x =>
          (last t = Some (Invoke (target api_call) (Some x))
           ∧ (∃ w0, run api_call w0 = (Raised x, w'))
           ∨ ∃ e s,
               last t = Some (Invoke (target api_call)
                                (Some (RateLimitError e)))
               ∧ (∃ w0, run api_call w0 = (Raised (RateLimitError e), w'))
               ∧ refuses
                   (wait_time float
                      (Nat.iter (pred (invocations t)) next_backoff
                         (backoff st)) e)
                 = Some s
               ∧ x = exn_of_sleep_error s)
          ∧ (is_rate_limit x = true →
             Z.of_nat (invocations t) = max_retries - retry_count st)
      end.
Proof.
  induction fuel as [|fuel IH]; intros st w w' o t Hloop.
  - destruct (Z.lt_ge_cases (retry_count st) max_retries) as [Hlt|Hge].
    + cbn [retry_loop] in Hloop.
      destruct (Z.ltb_spec (retry_count st) max_retries); [|lia].
      discriminate Hloop.
    + rewrite retry_loop_exit in Hloop by lia.
      injection Hloop as <- <- <-. simpl. repeat split; lia.
  - destruct (Z.lt_ge_cases (retry_count st) max_retries) as [Hlt|Hge];
      [|rewrite retry_loop_exit in Hloop by lia;
        injection Hloop as <- <- <-; simpl; repeat split; lia].
    destruct (run api_call w) as [[r|x] w1] eqn:Hrun.
    + erewrite retry_loop_returned in Hloop by eassumption.
      injection Hloop as <- <- <-. simpl.
      repeat split; [lia | eauto].
    + destruct (is_rate_limit x) eqn:Hx.
      * destruct x as [e| | | | | |]; try discriminate Hx.
        destruct (Z.lt_ge_cases (retry_count st + 1) max_retries)
          as [Hmore|Hlast].
        -- destruct (refuses (wait_time float (backoff st) e)) as [s|]
             eqn:Hsleep.
           { erewrite retry_loop_refused in Hloop by eassumption.
             injection Hloop as <- <- <-. simpl.
             split; [lia|]. split; [reflexivity|].
             split; [right; eauto 10|].
             destruct s; discriminate. }
           erewrite retry_loop_retry in Hloop by eassumption.
           unfold after in Hloop.
           destruct (run_loop fuel (retried st) _)
             as [[[o2 w2] t2]|] eqn:Hrest; [|discriminate Hloop].
           injection Hloop as <- <- <-.
           destruct (IH _ _ _ _ _ Hrest) as (Hcalls & Hsleeps & Hres).
           cbn [retried retry_count] in Hcalls, Hres.
           assert (Hend : ∃ p err, last t2 = Some (Invoke p err)).
           { destruct o2 as [[r|]|x].
             - destruct Hres as [Hend _]. eauto.
             - destruct Hres as (_ & _ & Habs). lia.
             - destruct Hres as [[[Hend _]|(e' & s & Hend & _)] _]; eauto. }
           destruct Hend as (p & err & Hend).
           pose proof (invocations_last t2 p err Hend) as Hpos.
           assert (Hlast : last (Invoke (target api_call)
                                   (Some (RateLimitError e))
                                 :: Sleep (wait_time float (backoff st) e)
                                 :: t2) = last t2).
           { destruct t2 as [|ev t2]; [discriminate Hend | reflexivity]. }
           cbn [app]. rewrite Hlast. cbn [invocations].
           change (sleeps (Invoke (target api_call) (Some (RateLimitError e))
                           :: Sleep (wait_time float (backoff st) e) :: t2))
             with (wait_time float (backoff st) e :: sleeps t2).
           split; [lia|]. split; [simpl; lia|].
           destruct o2 as [[r|]|x].
           ++ exact Hres.
           ++ destruct Hres as (_ & _ & Habs). lia.
           ++ destruct Hres as [Hfrom Hcount].
              split; [|intros Hrl; specialize (Hcount Hrl); lia].
              destruct Hfrom as [Hfrom|(e' & s & Hlast' & Hrun' & Hs & ->)];
                [left; exact Hfrom|].
              right. exists e', s.
              split; [exact Hlast'|]. split; [exact Hrun'|].
              split; [|reflexivity].
              cbn [retried backoff] in Hs.
              replace (Nat.iter (pred (S (invocations t2))) next_backoff
                         (backoff st))
                with (Nat.iter (pred (invocations t2)) next_backoff
                        (next_backoff (backoff st))); [exact Hs|].
              rewrite <- Nat.iter_succ_r. f_equal. lia.
        -- erewrite retry_loop_exhausted in Hloop by eassumption.
           injection Hloop as <- <- <-. simpl.
           split; [lia|]. split; [reflexivity|].
           split; [left; eauto | lia].
      * erewrite retry_loop_other in Hloop by eassumption.
        injection Hloop as <- <- <-. simpl.
        split; [lia|]. split; [reflexivity|].
        split; [left; eauto | congruence].
Qed.

(** A run that ends on a rate-limited invocation with fewer invocations than
    attempts allowed: the sleep after it was refused. *)
Lemma retry_loop_refusal_early (fuel : nat) :
  ∀ (st : RetryState) (w w' : W) o (t : list (event F)),
    run_loop fuel st w = Some (o, w', t) →
    ∀ e, last t = Some (Invoke (target api_call) (Some (RateLimitError e))) →
         o ≠ Raised (RateLimitError e) →
         Z.of_nat (invocations t) < max_retries - retry_count st.
Proof.
  induction fuel as [|fuel IH]; intros st w w' o t Hloop e Hend Hne.
  - destruct (Z.lt_ge_cases (retry_count st) max_retries) as [Hlt|Hge].
    + cbn [retry_loop] in Hloop.
      destruct (Z.ltb_spec (retry_count st) max_retries); [|lia].
      discriminate Hloop.
    + rewrite retry_loop_exit in Hloop by lia.
      injection Hloop as <- <- <-. discriminate Hend.
  - destruct (Z.lt_ge_cases (retry_count st) max_retries) as [Hlt|Hge];
      [|rewrite retry_loop_exit in Hloop by lia;
        injection Hloop as <- <- <-; discriminate Hend].
    destruct (run api_call w) as [[r|x] w1] eqn:Hrun.
    + erewrite retry_loop_returned in Hloop by eassumption.
      injection Hloop as <- <- <-. discriminate Hend.
    + destruct (is_rate_limit x) eqn:Hx.
      * destruct x as [e0| | | | | |]; try discriminate Hx.
        destruct (Z.lt_ge_cases (retry_count st + 1) max_retries)
          as [Hmore|Hlast].
        -- destruct (refuses (wait_time float (backoff st) e0)) as [s|]
             eqn:Hsleep.
           { erewrite retry_loop_refused in Hloop by eassumption.
             injection Hloop as <- <- <-. simpl. lia. }
           erewrite retry_loop_retry in Hloop by eassumption.
           unfold after in Hloop.
           destruct (run_loop fuel (retried st) _)
             as [[[o2 w2] t2]|] eqn:Hrest; [|discriminate Hloop].
           injection Hloop as <- <- <-.
           destruct (retry_loop_shape _ _ _ _ _ _ Hrest) as (_ & _ & Hres).
           assert (Hnonempty : t2 ≠ []).
           { intros ->. destruct o2 as [[r|]|x].
             - destruct Hres as [Habs _]. discriminate Habs.
             - destruct Hres as (_ & _ & Habs).
               cbn [retried retry_count] in Habs. lia.
             - destruct Hres as [[[Habs _]|(e' & s & Habs & _)] _];
                 discriminate Habs. }
           assert (Hend2 : last t2
                           = Some (Invoke (target api_call)
                                     (Some (RateLimitError e)))).
           { destruct t2 as [|ev t2]; [congruence | exact Hend]. }
           specialize (IH _ _ _ _ _ Hrest e Hend2 Hne).
           cbn [retried retry_count] in IH. cbn [app invocations]. lia.
        -- erewrite retry_loop_exhausted in Hloop by eassumption.
           injection Hloop as <- <- <-.
           injection Hend as <-. congruence.
      * erewrite retry_loop_other in Hloop by eassumption.
        injection Hloop as <- <- <-.
        injection Hend as ->. discriminate Hx.
Qed.
End RunFacts.


(** A wait that is an integer is the backoff: header values become floats. *)
Lemma wait_time_int {F : Type} (float : string → option F)
    (b z : Z) (e : RateLimitErr) :
  wait_time float b e = PyInt z → z = b.
Proof.
  unfold wait_time, read_wait.
  destruct (response e) as [r|]; [|congruence].
  destruct (headers r !! "retry-after") as [v|].
  - destruct (float v); simpl; congruence.
  - destruct (headers r !! "x-ratelimit-reset-after") as [v|];
      [destruct (float v); simpl; congruence | congruence].
Qed.

(** In a paced trace the [k]-th sleep is the wait computed under the [k]-th
    backoff. *)
Lemma paced_sleeps {F : Type} (float : string → option F)
    (t : list (event F)) :
  ∀ (k0 k : nat) (d : number F),
    paced float k0 t →
    sleeps t !! k = Some d →
    ∃ e, d = wait_time float (backoff_at (k0 + k)) e.
Proof.
  remember (length t) as n eqn:Hn. revert t Hn.
  induction n as [n IH] using lt_wf_ind; intros t Hn k0 k d Hpaced Hk.
  destruct t as [|ev1 t]; [discriminate Hk|].
  destruct ev1 as [p err|d1]; [|destruct t; contradiction].
  destruct t as [|ev2 t]; [discriminate Hk|].
  destruct err as [[e| | | | | |]|]; try contradiction.
  destruct ev2 as [p2 err2|d2]; [contradiction|].
  cbn [paced] in Hpaced. destruct Hpaced as [-> Hrest].
  cbn [sleeps omap] in Hk. fold (sleeps t) in Hk.
  destruct k as [|k].
  - injection Hk as <-. exists e. rewrite Nat.add_0_r. reflexivity.
  - cbn [lookup list_lookup] in Hk.
    destruct (IH (length t) ltac:(subst n; simpl; lia) t eq_refl
                (S k0) k d Hrest Hk) as [e' ->].
    exists e'. do 2 f_equal. lia.
Qed.

(** X4: with [max_retries] at least 1, [with_retry] always ends, never by
    returning [None].  It returns the value that the last invocation of the
    call returned, or it raises the exception that the last invocation
    raised, or, the last invocation having raised a rate-limit error below
    the bound, it raises the error with which [sleep] refused the wait
    computed from that error under the backoff then in force. *)
Theorem with_retry_result_is_last_attempt
    {F W R : Type} (float : string → option F) (elapse : number F → W → W)
    (refuses : number F → option sleep_error)
    (api_call : Callable W R) (max_retries : Z) (w : W) :
  1 ≤ max_retries →
  ∃ o w' (t : list (event F)),
    with_retry float elapse refuses api_call max_retries w = Some (o, w', t)
    ∧ ((∃ r w0,
          o = Returned (Some r)
          ∧ run api_call w0 = (Returned r, w')
          ∧ last t = Some (Invoke (target api_call) None))
       ∨ (∃ x w0,
            o = Raised x
            ∧ run api_call w0 = (Raised x, w')
            ∧ last t = Some (Invoke (target api_call) (Some x)))
       ∨ (∃ e s w0,
            o = Raised (exn_of_sleep_error s)
            ∧ run api_call w0 = (Raised (RateLimitError e), w')
            ∧ last t = Some (Invoke (target api_call)
                               (Some (RateLimitError e)))
            ∧ refuses (wait_time float
                         (backoff_at (pred (invocations t))) e)
              = Some s
            ∧ Z.of_nat (invocations t) < max_retries)).
Proof.
  intros Hmax.
  destruct (with_retry_total float elapse refuses api_call max_retries w)
    as [[[o w'] t] Hrun].
  exists o, w', t. split; [exact Hrun|].
  destruct (retry_loop_shape float elapse refuses api_call max_retries
              _ _ _ _ _ _ Hrun) as (Hcalls & Hsleeps & Hres).
  pose proof (retry_loop_refusal_early float elapse refuses api_call
                max_retries _ _ _ _ _ _ Hrun) as Hearly.
  destruct o as [[r|]|x].
  - destruct Hres as (Hend & w0 & Hfrom). left. eauto.
  - destruct Hres as (_ & _ & Habs). simpl in Habs. lia.
  - destruct Hres as [[(Hend & w0 & Hfrom)
                      |(e & s & Hend & (w0 & Hfrom) & Hs & ->)] _].
    + right. left. eauto.
    + right. right. exists e, s, w0.
      split; [reflexivity|]. split; [exact Hfrom|]. split; [exact Hend|].
      split; [exact Hs|].
      cbn [initial retry_count] in Hearly.
      assert (Hne : Raised (exn_of_sleep_error s)
                    ≠ (Raised (RateLimitError e) : outcome (option R))).
      { destruct s; discriminate. }
      specialize (Hearly e Hend Hne). lia.
Qed.

Lemma with_retry_result_is_last_attempt_witness :
  ∃ o w' (t : list (event Q)),
    with_retry float_signed elapse_none refuses_negative negative_limited
      10 0%nat
    = Some (o, w', t)
    ∧ ((∃ r w0,
          o = Returned (Some r)
          ∧ run negative_limited w0 = (Returned r, w')
          ∧ last t = Some (Invoke (target negative_limited) None))
       ∨ (∃ x w0,
            o = Raised x
            ∧ run negative_limited w0 = (Raised x, w')
            ∧ last t = Some (Invoke (target negative_limited) (Some x)))
       ∨ (∃ e s w0,
            o = Raised (exn_of_sleep_error s)
            ∧ run negative_limited w0 = (Raised (RateLimitError e), w')
            ∧ last t = Some (Invoke (target negative_limited)
                               (Some (RateLimitError e)))
            ∧ refuses_negative
                (wait_time float_signed
                   (backoff_at (pred (invocations t))) e)
              = Some s
            ∧ Z.of_nat (invocations t) < 10)).
Proof.
  apply (with_retry_result_is_last_attempt
           float_signed elapse_none refuses_negative negative_limited
           10 0%nat).
  lia.
Defined.

(** X5: with [max_retries] at least 1 and any provider, a run of
    [with_retry] invokes the call at least once and at most [max_retries]
    times, and sleeps one time fewer than it invokes; when what it raises is
    a rate-limit error, the call was invoked exactly [max_retries] times. *)
Theorem with_retry_attempts_bounded
    {F W R : Type} (float : string → option F) (elapse : number F → W → W)
    (refuses : number F → option sleep_error)
    (api_call : Callable W R) (max_retries : Z) (w w' : W)
    (o : outcome (option R)) (t : list (event F)) :
  1 ≤ max_retries →
  with_retry float elapse refuses api_call max_retries w = Some (o, w', t) →
  1 ≤ Z.of_nat (invocations t) ≤ max_retries
  ∧ Z.of_nat (length (sleeps t)) = Z.of_nat (invocations t) - 1
  ∧ (∀ e, o = Raised (RateLimitError e) →
          Z.of_nat (invocations t) = max_retries).
Proof.
  intros Hmax Hrun.
  destruct (retry_loop_shape float elapse refuses api_call max_retries
              _ _ _ _ _ _ Hrun) as (Hcalls & Hsleeps & Hres).
  cbn [initial retry_count] in Hcalls, Hres.
  assert (Hpos : (1 ≤ invocations t)%nat).
  { destruct o as [[r|]|x].
    - destruct Hres as [Hend _]. eapply invocations_last, Hend.
    - destruct Hres as (_ & _ & Habs). lia.
    - destruct Hres as [[[Hend _]|(e & s & Hend & _)] _];
        eapply invocations_last, Hend. }
  split; [lia|]. split; [lia|].
  intros e ->. destruct Hres as (_ & Hcount).
  specialize (Hcount eq_refl). lia.
Qed.

Lemma with_retry_attempts_bounded_witness :
  1 ≤ Z.of_nat (invocations
                  (default []
                     (snd <$> with_retry float_digits elapse_none
                                refuses_negative always_limited 3 0%nat)))
    ≤ 3.
Proof.
  destruct (with_retry float_digits elapse_none refuses_negative
              always_limited 3 0%nat)
    as [[[o w'] t]|] eqn:Hrun; [|discriminate Hrun].
  apply (with_retry_attempts_bounded
           float_digits elapse_none refuses_negative always_limited
           3 0%nat w' o t);
    [lia | exact Hrun].
Defined.

(** X6: the waits that come from the backoff are fixed by their position: in
    any run of [with_retry], if the [k]-th sleep (counting from zero) is not
    read from a header, it lasts [min(2^k, 60)] seconds, whatever the earlier
    waits were; so it is at least 1 and at most 60. *)
Theorem with_retry_backoff_wait_by_position
    {F W R : Type} (float : string → option F) (elapse : number F → W → W)
    (refuses : number F → option sleep_error)
    (api_call : Callable W R) (max_retries : Z) (w w' : W)
    (o : outcome (option R)) (t : list (event F)) (k : nat) (z : Z) :
  with_retry float elapse refuses api_call max_retries w = Some (o, w', t) →
  sleeps t !! k = Some (PyInt z) →
  z = Z.min (2 ^ Z.of_nat k) 60 ∧ 1 ≤ z ≤ 60.
Proof.
  intros Hrun Hk.
  assert (Hpaced : paced float 0 t)
    by (eapply retry_loop_paced; [exact Hrun | reflexivity]).
  destruct (paced_sleeps float t 0 k _ Hpaced Hk) as [e He].
  symmetry in He. apply wait_time_int in He. simpl in He.
  pose proof (backoff_at_bounds k).
  rewrite <- backoff_at_closed. lia.
Qed.

Lemma with_retry_backoff_wait_by_position_witness :
  sleeps (default []
            (snd <$> with_retry float_digits elapse_none refuses_negative
                       thrice_limited 10 0%nat)) !! 2%nat
  = Some (PyInt 4)
  ∧ (4 = Z.min (2 ^ Z.of_nat 2) 60 ∧ 1 ≤ 4 ≤ 60).
Proof.
  split; [reflexivity|].
  destruct (with_retry float_digits elapse_none refuses_negative
              thrice_limited 10 0%nat)
    as [[[o w'] t]|] eqn:Hrun; [|discriminate Hrun].
  apply (with_retry_backoff_wait_by_position
           float_digits elapse_none refuses_negative thrice_limited
           10 0%nat w' o t 2 4 Hrun).
  vm_compute in Hrun. injection Hrun as _ _ <-. reflexivity.
Defined.

Section RecoveryFacts.
Context {F W R : Type}.
Variable float : string → option F.
Variable elapse : number F → W → W.
Variable refuses : number F → option sleep_error.
Variable api_call : Callable W R.
Variable max_retries : Z.

(** The loop follows a provider that recovers, attempt by attempt. *)
Lemma retry_loop_recovers (k : nat) :
  ∀ (fuel : nat) (st : RetryState) (w w' : W) (r : R),
    recovers float elapse refuses api_call k (backoff st) w r w' →
    retry_count st + Z.of_nat k < max_retries →
    (k < fuel)%nat →
    ∃ t : list (event F),
      retry_loop float elapse refuses fuel api_call max_retries st w
      = Some (Returned (Some r), w', t)
      ∧ invocations t = S k
      ∧ length (sleeps t) = k.
Proof.
  induction k as [|k IH]; intros fuel st w w' r Hrec Hlt Hfuel;
    (destruct fuel as [|fuel]; [lia|]); inversion Hrec; subst.
  - exists [Invoke (target api_call) None].
    split; [|split; reflexivity].
    apply retry_loop_returned; [lia | assumption].
  - erewrite retry_loop_retry by (eassumption || lia).
    destruct (IH fuel (retried st) _ w' r ltac:(eassumption)
                ltac:(simpl; lia) ltac:(lia))
      as (t & Hrest & Hcalls & Hsleeps).
    unfold after. rewrite Hrest.
    eexists. split; [reflexivity|].
    cbn [app invocations].
    split; [lia|].
    change (S (length (sleeps t)) = S k). lia.
Qed.
End RecoveryFacts.

(** X7: when the provider is rate-limited on [k] attempts in a row, with
    [k] below [max_retries], [sleep] accepts the wait computed after each of
    them, and the provider then returns [r], [with_retry] returns [r]: it has
    invoked the call [k + 1] times and slept [k] times, and leaves the world
    as the successful invocation left it. *)
Theorem with_retry_recovers
    {F W R : Type} (float : string → option F) (elapse : number F → W → W)
    (refuses : number F → option sleep_error)
    (api_call : Callable W R) (max_retries : Z) (k : nat)
    (w w' : W) (r : R) :
  recovers float elapse refuses api_call k 1 w r w' →
  Z.of_nat k < max_retries →
  ∃ t : list (event F),
    with_retry float elapse refuses api_call max_retries w
    = Some (Returned (Some r), w', t)
    ∧ invocations t = S k
    ∧ length (sleeps t) = k.
Proof.
  intros Hrec Hlt. unfold with_retry.
  apply (retry_loop_recovers float elapse refuses api_call max_retries k);
    [exact Hrec | simpl; lia | lia].
Qed.

Lemma with_retry_recovers_witness :
  ∃ t : list (event Q),
    with_retry float_digits elapse_none refuses_negative thrice_limited
      10 0%nat
    = Some (Returned (Some "ok"), 4%nat, t)
    ∧ invocations t = 4%nat
    ∧ length (sleeps t) = 3%nat.
Proof.
  apply (with_retry_recovers
           float_digits elapse_none refuses_negative thrice_limited 10 3).
  - eapply recovers_later; [reflexivity | reflexivity |].
    eapply recovers_later; [reflexivity | reflexivity |].
    eapply recovers_later; [reflexivity | reflexivity |].
    apply recovers_now. reflexivity.
  - lia.
Defined.

(** ** The HTTP route: every run *)

Section PipelineFacts.
Context {F W : Type}.
Variable float : string → option F.
Variable elapse : number F → W → W.
Variable refuses : number F → option sleep_error.
Variable env : @Env F W.

(** How a sequence of two computations can end. *)
Lemma bind_inv {A B} (m : M F W A) (k : A → M F W B)
    (w w' : W) (o : outcome B) (t : list (event F)) :
  (m ≫= k) w = Some (o, w', t) →
  (∃ e, m w = Some (Raised e, w', t) ∧ o = Raised e)
  ∨ (∃ a w1 t1 t2,
       m w = Some (Returned a, w1, t1)
       ∧ k a w1 = Some (o, w', t2)
       ∧ t = t1 ++ t2).
Proof.
  unfold mbind, M_bind, bind.
  destruct (m w) as [[[[a|e] w1] t1]|]; [| |discriminate].
  - destruct (k a w1) as [[[o2 w2] t2]|] eqn:Hk; [|discriminate].
    intros [= <- <- <-]. right. eauto 10.
  - intros [= <- <- <-]. left. eauto.
Qed.

Lemma silent_lift {A} (o : outcome A) : silent (lift (F:=F) (W:=W) o).
Proof. intros w o' w' t [= <- <- <-]. auto. Qed.

Lemma silent_first_item {A} (l : list A) :
  silent (first_item (F:=F) (W:=W) l).
Proof. destruct l; intros w o' w' t [= <- <- <-]; auto. Qed.

Lemma silent_attribute_of {A} (name : string) (r : option A) :
  silent (attribute_of (F:=F) (W:=W) name r).
Proof. destruct r; intros w o' w' t [= <- <- <-]; auto. Qed.

Lemma silent_getitem (m : gmap string string) (key : string) :
  silent (getitem (F:=F) (W:=W) m key).
Proof.
  unfold getitem. destruct (m !! key); intros w o' w' t [= <- <- <-]; auto.
Qed.

Lemma silent_bind {A B} (m : M F W A) (k : A → M F W B) :
  silent m → (∀ a, silent (k a)) → silent (m ≫= k).
Proof.
  intros Hm Hk w o w' t Hrun.
  apply bind_inv in Hrun
    as [(e & Hrun & _) | (a & w1 & t1 & t2 & Hrun1 & Hrun2 & ->)].
  - apply Hm in Hrun. exact Hrun.
  - apply Hm in Hrun1 as [-> ->]. apply Hk in Hrun2 as [-> ->]. auto.
Qed.

Lemma silent_docs_of (docs_meta : list (gmap string string)) :
  silent (docs_of (F:=F) (W:=W) docs_meta).
Proof.
  induction docs_meta as [|m rest IH]; cbn [docs_of].
  - intros w o w' t [= <- <- <-]. auto.
  - apply silent_bind; [apply silent_getitem|]. intros date.
    apply silent_bind; [apply silent_getitem|]. intros content.
    apply silent_bind; [exact IH|]. intros docs.
    intros w o w' t [= <- <- <-]. auto.
Qed.

(** The trace of one [with_retry] with the default bound. *)
Lemma with_retry_stage {R} (c : Callable W R)
    (w w' : W) (o : outcome (option R)) (t : list (event F)) :
  with_retry float elapse refuses c 10 w = Some (o, w', t) →
  retry_stage (target c) t.
Proof.
  intros Hrun. split.
  - intros [p err|d] Hin; [left|right; eauto].
    eapply retry_loop_target in Hin; [|exact Hrun]. subst p. eauto.
  - destruct (retry_loop_shape float elapse refuses c 10 _ _ _ _ _ _ Hrun)
      as (Hcalls & _). simpl in Hcalls. lia.
Qed.

Lemma retry_stage_nil (p : provider) : retry_stage (F:=F) p [].
Proof. split; [intros ev Hin; inversion Hin | simpl; lia]. Qed.

Lemma with_retry_returned_last {R} (c : Callable W R)
    (w w' : W) (r : option R) (t : list (event F)) :
  with_retry float elapse refuses c 10 w = Some (Returned r, w', t) →
  last t = Some (Invoke (target c) None).
Proof.
  intros Hrun.
  destruct (retry_loop_shape float elapse refuses c 10 _ _ _ _ _ _ Hrun)
    as (_ & _ & Hres).
  destruct r as [r|]; [exact (proj1 Hres)|].
  destruct Hres as (_ & _ & Habs). simpl in Habs. lia.
Qed.

Lemma pipeline_embedding (te : list (event F)) :
  retry_stage Embeddings te → pipeline te.
Proof.
  intros Hte. exists te, [], [].
  rewrite !app_nil_r.
  split_and!; [reflexivity | exact Hte | | simpl; lia
              | apply retry_stage_nil | congruence | congruence].
  intros ev Hin. inversion Hin.
Qed.

Lemma pipeline_store (te ts : list (event F)) :
  retry_stage Embeddings te →
  last te = Some (Invoke Embeddings None) →
  (∃ err, ts = [Invoke VectorStore err]
          ∨ ts = [Invoke VectorStore None; Invoke VectorStore err]) →
  pipeline (te ++ ts).
Proof.
  intros Hte Hlast (err & Hts). exists te, ts, [].
  rewrite !app_nil_r.
  split_and!; [reflexivity | exact Hte | | | apply retry_stage_nil
              | intros _; exact Hlast | congruence].
  - intros ev Hin. destruct Hts as [-> | ->];
      rewrite ?elem_of_cons in Hin;
      repeat (destruct Hin as [-> | Hin]; [eauto|]); inversion Hin.
  - destruct Hts as [-> | ->]; simpl; lia.
Qed.

Lemma pipeline_completion (te tc : list (event F)) :
  retry_stage Embeddings te →
  last te = Some (Invoke Embeddings None) →
  retry_stage ChatCompletions tc →
  pipeline (te ++ [Invoke VectorStore None; Invoke VectorStore None] ++ tc).
Proof.
  intros Hte Hlast Htc.
  exists te, [Invoke VectorStore None; Invoke VectorStore None], tc.
  split_and!; [reflexivity | exact Hte | | simpl; lia | exact Htc
              | intros _; exact Hlast | reflexivity].
  intros ev Hin. rewrite !elem_of_cons in Hin.
  repeat (destruct Hin as [-> | Hin]; [eauto|]). inversion Hin.
Qed.
Lemma invoke_inv {R} (c : Callable W R)
    (w w' : W) (o : outcome R) (t : list (event F)) :
  invoke c w = Some (o, w', t) →
  run c w = (o, w') ∧ t = [Invoke (target c) (error_of o)].
Proof.
  unfold invoke. destruct (run c w) as [o1 w1].
  intros [= <- <- <-]. auto.
Qed.

(** Every run of the [try] block goes through the pipeline in order, and
    what it returns has status 200. *)
Lemma answer_trace (prompt : string)
    (w w' : W) (o : outcome (string * Z)) (t : list (event F)) :
  answer float elapse refuses env prompt w = Some (o, w', t) →
  pipeline t ∧ ∀ body status, o = Returned (body, status) → status = 200.
Proof.
  intros H. unfold answer in H.
  apply bind_inv in H
    as [(e & H & ->) | (enc & w1 & t1 & t2 & H1 & H & ->)].
  { apply silent_lift in H as [-> ->].
    split; [apply pipeline_embedding, retry_stage_nil | discriminate]. }
  apply silent_lift in H1 as [-> ->]. cbn [app].
  apply bind_inv in H
    as [(e & H & ->) | (er & w2 & te & t3 & He & H & ->)].
  { split; [|discriminate].
    apply pipeline_embedding. apply (with_retry_stage _ _ _ _ _ H). }
  pose proof (with_retry_stage _ _ _ _ _ He) as Hte.
  pose proof (with_retry_returned_last _ _ _ _ _ He) as Hlast.
  cbn [target] in Hte, Hlast.
  apply bind_inv in H
    as [(e & H & ->) | (resp & w3 & t4 & t5 & H1 & H & ->)].
  { apply silent_attribute_of in H as [-> ->]. rewrite ?app_nil_r.
    split; [apply pipeline_embedding, Hte | discriminate]. }
  apply silent_attribute_of in H1 as [-> ->]. cbn [app].
  apply bind_inv in H
    as [(e & H & ->) | (item & w4 & t6 & t7 & H1 & H & ->)].
  { apply silent_first_item in H as [-> ->]. rewrite ?app_nil_r.
    split; [apply pipeline_embedding, Hte | discriminate]. }
  apply silent_first_item in H1 as [-> ->]. cbn [app].
  apply bind_inv in H
    as [(e & H & ->) | (coll & w5 & t8 & t9 & H1 & H & ->)].
  { apply invoke_inv in H as [_ ->]. cbn [target error_of].
    split; [|discriminate]. apply pipeline_store; eauto. }
  apply invoke_inv in H1 as [_ ->]. cbn [target error_of].
  apply bind_inv in H
    as [(e & H & ->) | (qr & w6 & t10 & t11 & H1 & H & ->)].
  { apply invoke_inv in H as [_ ->]. cbn [target error_of].
    split; [|discriminate]. apply pipeline_store; eauto. }
  apply invoke_inv in H1 as [_ ->]. cbn [target error_of].
  destruct (no_documents qr).
  { injection H as <- <- <-. rewrite ?app_nil_r.
    split; [apply pipeline_store; eauto | congruence]. }
  apply bind_inv in H
    as [(e & H & ->) | (docs_meta & w7 & t12 & t13 & H1 & H & ->)].
  { apply silent_first_item in H as [-> ->]. rewrite ?app_nil_r.
    split; [apply pipeline_store; eauto | discriminate]. }
  apply silent_first_item in H1 as [-> ->]. cbn [app].
  apply bind_inv in H
    as [(e & H & ->) | (docs & w8 & t14 & t15 & H1 & H & ->)].
  { apply silent_docs_of in H as [-> ->]. rewrite ?app_nil_r.
    split; [apply pipeline_store; eauto | discriminate]. }
  apply silent_docs_of in H1 as [-> ->]. cbn [app].
  apply bind_inv in H
    as [(e & H & ->) | (date & w9 & t16 & t17 & H1 & H & ->)].
  { discriminate H. }
  injection H1 as <- <- <-. cbn [app].
  apply bind_inv in H
    as [(e & H & ->) | (cr & w10 & tc & t18 & Hc & H & ->)].
  { split; [|discriminate].
    apply pipeline_completion; [exact Hte | exact Hlast |].
    apply (with_retry_stage _ _ _ _ _ H). }
  pose proof (with_retry_stage _ _ _ _ _ Hc) as Htc. cbn [target] in Htc.
  assert (Hpipe : pipeline
            (te ++ [Invoke VectorStore None; Invoke VectorStore None] ++ tc))
    by (apply pipeline_completion; assumption).
  apply bind_inv in H
    as [(e & H & ->) | (resp' & w11 & t19 & t20 & H1 & H & ->)].
  { apply silent_attribute_of in H as [-> ->]. rewrite ?app_nil_r.
    split; [exact Hpipe | discriminate]. }
  apply silent_attribute_of in H1 as [-> ->]. cbn [app].
  apply bind_inv in H
    as [(e & H & ->) | (choice & w12 & t21 & t22 & H1 & H & ->)].
  { apply silent_first_item in H as [-> ->]. rewrite ?app_nil_r.
    split; [exact Hpipe | discriminate]. }
  apply silent_first_item in H1 as [-> ->]. cbn [app].
  destruct (reply_content (choice_message choice));
    injection H as <- <- <-; rewrite ?app_nil_r;
    (split; [exact Hpipe | congruence]).
Qed.
End PipelineFacts.

(** X8: the route always answers, with status 200, 400 or 500.  The status
    is 400 exactly when the prompt is missing or empty; the body is then the
    fixed message and nothing has been invoked.  With status 200 the body is
    what the [try] block returned; with status 500 the [try] block raised an
    exception and the body is "An error occurred: " followed by the text of
    that exception. *)
Theorem mainroute_status_classes
    {F W : Type} (float : string → option F) (elapse : number F → W → W)
    (refuses : number F → option sleep_error)
    (env : @Env F W) (prompt : option string) (w : W) :
  ∃ body status w' (t : list (event F)),
    mainroute float elapse refuses env prompt w
    = Some (Returned (body, status), w', t)
    ∧ (status = 200 ∨ status = 400 ∨ status = 500)
    ∧ (status = 400 ↔ prompt = None ∨ prompt = Some "")
    ∧ (status = 400 →
       body = "Please provide a prompt using the 'prompt' query parameter."
       ∧ w' = w ∧ t = [])
    ∧ (status = 200 →
       ∃ p, prompt = Some p
            ∧ answer float elapse refuses env p w
              = Some (Returned (body, 200), w', t))
    ∧ (status = 500 →
       ∃ p e, prompt = Some p
              ∧ answer float elapse refuses env p w = Some (Raised e, w', t)
              ∧ body = "An error occurred: " +:+ str_exn e).
Proof.
  assert (Hmissing : missing prompt = true ↔ prompt = None ∨ prompt = Some "").
  { destruct prompt as [[|c prompt]|]; simpl; split; auto;
      intros H; try discriminate H; destruct H as [H|H]; discriminate H. }
  unfold mainroute. destruct (missing prompt) eqn:Hnot.
  - do 4 eexists. split; [reflexivity|].
    split_and!; [auto | split; [intros _; apply Hmissing|]; auto
                | auto | discriminate | discriminate].
  - assert (Hpresent : ¬ (prompt = None ∨ prompt = Some ""))
      by (intros H; apply Hmissing in H; discriminate H).
    destruct prompt as [p|]; [|discriminate Hnot].
    change (default "" (Some p)) with p.
    unfold try_except.
    destruct (answer_total float elapse refuses env p w)
      as [[[[[body status]|e] w1] t1] Hanswer]; rewrite Hanswer.
    + pose proof (answer_trace _ _ _ _ _ _ _ _ _ Hanswer) as [_ Hstatus].
      specialize (Hstatus body status eq_refl). subst status.
      do 4 eexists. split; [reflexivity|].
      split_and!; [auto | | discriminate | eauto | discriminate].
      split; [discriminate | intros H; destruct (Hpresent H)].
    + do 4 eexists. split; [reflexivity|].
      rewrite app_nil_r.
      split_and!; [auto | | discriminate | discriminate | eauto].
      split; [discriminate | intros H; destruct (Hpresent H)].
Qed.

(** X9: whatever the providers do, the trace of a request follows the
    pipeline: embedding attempts (at most 10), then at most two invocations
    of the vector store, made only after an embedding call returned, then
    completion attempts (at most 10), made only after both store invocations
    returned. *)
Theorem mainroute_follows_pipeline
    {F W : Type} (float : string → option F) (elapse : number F → W → W)
    (refuses : number F → option sleep_error)
    (env : @Env F W) (prompt : option string) (w w' : W)
    (o : outcome (string * Z)) (t : list (event F)) :
  mainroute float elapse refuses env prompt w = Some (o, w', t) →
  pipeline t.
Proof.
  unfold mainroute. destruct (missing prompt).
  - intros [= <- <- <-]. apply pipeline_embedding, retry_stage_nil.
  - unfold try_except.
    destruct (answer float elapse refuses env (default "" prompt) w)
      as [[[[r|e] w1] t1]|] eqn:Hanswer; [| |discriminate].
    + intros [= <- <- <-]. apply (answer_trace _ _ _ _ _ _ _ _ _ Hanswer).
    + intros [= <- <- <-]. rewrite app_nil_r.
      apply (answer_trace _ _ _ _ _ _ _ _ _ Hanswer).
Qed.

Lemma mainroute_follows_pipeline_witness :
  pipeline (F:=Q)
    [Invoke Embeddings None; Invoke VectorStore None;
     Invoke VectorStore None; Invoke ChatCompletions None].
Proof.
  apply (mainroute_follows_pipeline
           float_digits elapse_none refuses_negative diary_env
           (Some "What did I do on my birthday?") 0%nat 4%nat
           (Returned
              ("Here are relevant diary entries:" +:+ LF
               +:+ "2025-03-01: Cake with Ana." +:+ LF
               +:+ "2025-03-02: Rain." +:+ LF
               +:+ "2024-03-01: Hiking." +:+ LF +:+ LF
               +:+ "User query: What did I do on my birthday?",
               200))).
  vm_compute. reflexivity.
Defined.

Section FailureFacts.
Context {F W : Type}.
Variable float : string → option F.
Variable elapse : number F → W → W.
Variable refuses : number F → option sleep_error.
Variable env : @Env F W.

(** A request with a prompt is answered by the [try] block, a raised
    exception becoming a 500. *)
Lemma mainroute_of_answer (prompt : string) (w w1 : W)
    (o : outcome (string * Z)) (t : list (event F)) :
  prompt ≠ "" →
  answer float elapse refuses env prompt w = Some (o, w1, t) →
  mainroute float elapse refuses env (Some prompt) w
  = Some (Returned
            match o with
            | Returned response => response
            | Raised e => ("An error occurred: " +:+ str_exn e, 500)
            end, w1, t).
Proof.
  intros Hprompt Hanswer. unfold mainroute.
  destruct prompt as [|c prompt]; [congruence|].
  cbn [missing].
  change (default "" (Some (String c prompt))) with (String c prompt).
  unfold try_except. rewrite Hanswer.
  destruct o as [response|e]; [reflexivity|].
  cbn. rewrite app_nil_r. reflexivity.
Qed.

(** The comprehension stops at the first record without one of the keys,
    on the first key that the record lacks. *)
Lemma docs_of_missing_key (earlier later : list (gmap string string))
    (m : gmap string string) (key : string) :
  Forall (λ m', is_Some (m' !! "date") ∧ is_Some (m' !! "content")) earlier →
  (m !! "date" = None ∧ key = "date")
  ∨ (is_Some (m !! "date") ∧ m !! "content" = None ∧ key = "content") →
  ∀ w : W,
    docs_of (F:=F) (earlier ++ m :: later) w
    = Some (Raised (KeyError key), w, []).
Proof.
  intros Hbefore Hkey w.
  induction Hbefore as [|m' earlier [[date Hdate] [content Hcontent]] _ IH].
  - cbn [app docs_of]. unfold mbind, M_bind, bind, getitem.
    destruct Hkey as [[Hdate ->] | ([date Hdate] & Hcontent & ->)].
    + rewrite Hdate. reflexivity.
    + rewrite Hdate, Hcontent. reflexivity.
  - cbn [app docs_of]. unfold mbind, M_bind, bind, getitem.
    rewrite Hdate, Hcontent. cbn [ret]. rewrite IH. reflexivity.
Qed.

(** The comprehension on records that all have both keys. *)
Lemma docs_of_complete (docs_meta : list (gmap string string))
    (docs : list (string * string)) :
  Forall2 (λ m doc, m !! "date" = Some doc.1 ∧ m !! "content" = Some doc.2)
    docs_meta docs →
  ∀ w : W, docs_of (F:=F) docs_meta w = Some (Returned docs, w, []).
Proof.
  induction 1 as [|m [date content] rest docs [Hdate Hcontent] _ IH];
    intros w; [reflexivity|].
  cbn [docs_of]. unfold mbind, M_bind, bind, getitem.
  simpl in Hdate, Hcontent. rewrite Hdate, Hcontent. cbn [ret].
  rewrite IH. reflexivity.
Qed.

(** The [try] block up to the point where the store has returned documents. *)
Lemma answer_with_documents (prompt : string) (enc : Encoding)
    (w w1 w2 w3 : W) (t1 : list (event F))
    (resp : CreateEmbeddingResponse) (item : Embedding)
    (rest : list Embedding) (collection : Collection)
    (docs_meta : list (gmap string string))
    (others : list (list (gmap string string))) :
  make_encoder env = Returned enc →
  with_retry float elapse refuses
    {| target := Embeddings;
       run := embeddings_create env prompt "text-embedding-3-small" |}
    10 w
  = Some (Returned (Some resp), w1, t1) →
  data resp = item :: rest →
  get_or_create_collection env "diary-rag-experiment" w1
  = (Returned collection, w2) →
  query collection [embedding item] 40 w2
  = (Returned {| metadatas := Some (docs_meta :: others) |}, w3) →
  docs_meta ≠ [] →
  answer float elapse refuses env prompt w
  = after (t1 ++ [Invoke VectorStore None; Invoke VectorStore None])
      (docs ← docs_of docs_meta;
       date ← now env;
       let messages :=
         [ {| role := "system"; content := system_prompt_of date |};
           {| role := "user";
              content := "Here are relevant diary entries:" +:+ LF
                         +:+ truncate_documents docs enc (TPM_BUDGET - 4000)
                         +:+ LF +:+ LF +:+ "User query: " +:+ prompt |} ] in
       resp ←
         with_retry float elapse refuses
           {| target := ChatCompletions;
              run := chat_completions_create env MODEL messages |}
           10;
       resp ← attribute_of "choices" resp;
       choice ← first_item (choices resp);
       match reply_content (choice_message choice) with
       | None => raise (TypeError "object of type 'NoneType' has no len()")
       | Some response_text => ret (response_text, 200)
       end) w3.
Proof.
  intros Henc Hembed Hdata Hcoll Hquery Hsome.
  unfold answer, after.
  unfold mbind at 1 2 3 4 5 6 7, M_bind at 1 2 3 4 5 6 7,
    bind at 1 2 3 4 5 6 7, lift.
  rewrite Henc, Hembed.
  cbn [attribute_of ret]. rewrite Hdata.
  cbn [first_item ret].
  unfold invoke. cbn [run target].
  rewrite Hcoll. rewrite Hquery.
  destruct docs_meta as [|m docs_meta]; [congruence|].
  cbn [no_documents metadatas default first_item ret error_of app].
  unfold id. cbn [first_item ret].
  match goal with
  | |- context [(docs_of ?l ≫= ?k) w3] =>
      destruct ((docs_of l ≫= k) w3) as [[[o w4] t4]|]
  end; [|reflexivity].
  cbn [app]. rewrite <- app_assoc. reflexivity.
Qed.
End FailureFacts.

Lemma embedding_stage_only {F W R : Type}
    (float : string → option F) (elapse : number F → W → W)
    (refuses : number F → option sleep_error)
    (run_call : W → outcome R * W) (w w1 : W)
    (o : outcome (option R)) (t1 ts : list (event F)) (p : provider) :
  with_retry float elapse refuses {| target := Embeddings; run := run_call |} 10 w
  = Some (o, w1, t1) →
  p ≠ Embeddings →
  (∀ ev, ev ∈ ts → ∃ err, ev = Invoke VectorStore err) →
  p ≠ VectorStore ∨ ts = [] →
  ¬ invoked p (t1 ++ ts).
Proof.
  intros Hembed Hp Hts Hstore [err Hin].
  apply elem_of_app in Hin as [Hin|Hin].
  - eapply retry_loop_target in Hin; [|exact Hembed]. simpl in Hin.
    congruence.
  - destruct Hstore as [Hne | ->]; [|inversion Hin].
    destruct (Hts _ Hin) as [err' Heq]. congruence.
Qed.

(** X10: when the embedding call fails for good, whether [with_retry] gave up
    on rate limits or passed another exception on, the request is answered
    500 with the text of that exception, and neither the vector store nor the
    completion provider is invoked. *)
Theorem mainroute_embedding_failure
    {F W : Type} (float : string → option F) (elapse : number F → W → W)
    (refuses : number F → option sleep_error)
    (env : @Env F W) (prompt : string) (enc : Encoding)
    (w w1 : W) (x : exn) (t1 : list (event F)) :
  prompt ≠ "" →
  make_encoder env = Returned enc →
  with_retry float elapse refuses
    {| target := Embeddings;
       run := embeddings_create env prompt "text-embedding-3-small" |}
    10 w
  = Some (Raised x, w1, t1) →
  mainroute float elapse refuses env (Some prompt) w
  = Some (Returned ("An error occurred: " +:+ str_exn x, 500), w1, t1)
  ∧ ¬ invoked VectorStore t1
  ∧ ¬ invoked ChatCompletions t1.
Proof.
  intros Hprompt Henc Hembed.
  split.
  - apply (mainroute_of_answer float elapse refuses env prompt w w1 (Raised x) t1
             Hprompt).
    unfold answer, mbind, M_bind, bind, lift.
    rewrite Henc, Hembed. reflexivity.
  - rewrite <- (app_nil_r t1).
    split; eapply embedding_stage_only; try exact Hembed; auto;
      try discriminate; intros ev Hin; inversion Hin.
Qed.

Lemma mainroute_embedding_failure_witness :
  ∃ t : list (event Q),
    mainroute float_digits elapse_none refuses_negative limited_env (Some "hi") 0%nat
    = Some (Returned ("An error occurred: Rate limit reached", 500),
            10%nat, t)
    ∧ invocations t = 10%nat
    ∧ ¬ invoked VectorStore t
    ∧ ¬ invoked ChatCompletions t.
Proof.
  destruct (with_retry float_digits elapse_none refuses_negative
              {| target := Embeddings;
                 run := embeddings_create limited_env "hi"
                          "text-embedding-3-small" |} 10 0%nat)
    as [[[o w1] t]|] eqn:Hrun; [|discriminate Hrun].
  exists t.
  assert (Hout : o = Raised (rate_limited ∅) ∧ w1 = 10%nat
                 ∧ invocations t = 10%nat).
  { vm_compute in Hrun. injection Hrun as <- <- <-.
    repeat split; reflexivity. }
  destruct Hout as (-> & -> & Hcalls).
  destruct (mainroute_embedding_failure float_digits elapse_none refuses_negative limited_env
              "hi" char_enc 0%nat 10%nat (rate_limited ∅) t
              ltac:(discriminate) eq_refl Hrun)
    as (Hresp & Hstore & Hchat).
  repeat split; assumption.
Defined.

(** X11: when the store returns documents and [m] is the first record of
    the first result list that lacks a [date] or a [content] entry, the
    request is answered 500 with the quoted name of the key whose lookup
    failed ([str] of the [KeyError]): [date] when [m] has no [date] entry,
    [content] when it has a [date] entry and no [content] entry.  The
    completion provider is not invoked. *)
Theorem mainroute_record_without_key
    {F W : Type} (float : string → option F) (elapse : number F → W → W)
    (refuses : number F → option sleep_error)
    (env : @Env F W) (prompt : string) (enc : Encoding)
    (w w1 w2 w3 : W) (t1 : list (event F))
    (resp : CreateEmbeddingResponse) (item : Embedding)
    (rest : list Embedding) (collection : Collection)
    (earlier later : list (gmap string string)) (m : gmap string string)
    (others : list (list (gmap string string))) (key : string) :
  prompt ≠ "" →
  make_encoder env = Returned enc →
  with_retry float elapse refuses
    {| target := Embeddings;
       run := embeddings_create env prompt "text-embedding-3-small" |}
    10 w
  = Some (Returned (Some resp), w1, t1) →
  data resp = item :: rest →
  get_or_create_collection env "diary-rag-experiment" w1
  = (Returned collection, w2) →
  query collection [embedding item] 40 w2
  = (Returned {| metadatas := Some ((earlier ++ m :: later) :: others) |},
     w3) →
  Forall (λ m', is_Some (m' !! "date") ∧ is_Some (m' !! "content")) earlier →
  (m !! "date" = None ∧ key = "date")
  ∨ (is_Some (m !! "date") ∧ m !! "content" = None ∧ key = "content") →
  mainroute float elapse refuses env (Some prompt) w
  = Some (Returned ("An error occurred: '" +:+ key +:+ "'", 500), w3,
          t1 ++ [Invoke VectorStore None; Invoke VectorStore None])
  ∧ ¬ invoked ChatCompletions
        (t1 ++ [Invoke VectorStore None; Invoke VectorStore None]).
Proof.
  intros Hprompt Henc Hembed Hdata Hcoll Hquery Hbefore Hkey.
  assert (Hsome : earlier ++ m :: later ≠ []).
  { destruct earlier; discriminate. }
  pose proof (docs_of_missing_key (F:=F) (W:=W) earlier later m key
                Hbefore Hkey) as Hfail.
  split.
  - apply (mainroute_of_answer float elapse refuses env prompt w w3
             (Raised (KeyError key)) _ Hprompt).
    erewrite answer_with_documents by eassumption.
    unfold after, mbind, M_bind, bind. rewrite Hfail.
    rewrite app_nil_r. reflexivity.
  - eapply embedding_stage_only;
      [exact Hembed | discriminate | | left; discriminate].
    intros ev Hin. rewrite !elem_of_cons in Hin.
    repeat (destruct Hin as [-> | Hin]; [eauto|]). inversion Hin.
Qed.

Lemma mainroute_record_without_key_witness :
  mainroute float_digits elapse_none refuses_negative torn_env (Some "hi")
    0%nat
  = Some (Returned ("An error occurred: 'content'", 500), 3%nat,
          [Invoke Embeddings None; Invoke VectorStore None;
           Invoke VectorStore None]).
Proof.
  apply (mainroute_record_without_key
           float_digits elapse_none refuses_negative torn_env
           "hi" char_enc 0%nat 1%nat 2%nat 3%nat [Invoke Embeddings None]
           {| data := [ {| embedding := [1%Q; 0%Q] |} ] |}
           {| embedding := [1%Q; 0%Q] |} [] torn_collection
           [ {[ "date" := "2025-03-01"; "content" := "Cake with Ana." ]} ]
           [] {[ "date" := "2025-03-02" ]} [] "content"
           ltac:(discriminate) eq_refl eq_refl eq_refl eq_refl eq_refl).
  - constructor; [|constructor].
    split; eexists; reflexivity.
  - right. split; [eexists; reflexivity|]. split; reflexivity.
Defined.

(** X12: when every step succeeds, the completion provider is called through
    [with_retry] with the model name and two messages, the system
    instructions for today's date and a user message made of the context
    block truncated at [TPM_BUDGET - 4000] tokens and the prompt, and the
    request is answered 200 with the text of the first choice. *)
Theorem mainroute_answers_from_documents
    {F W : Type} (float : string → option F) (elapse : number F → W → W)
    (refuses : number F → option sleep_error)
    (env : @Env F W) (prompt : string) (enc : Encoding)
    (w w1 w2 w3 w4 : W) (t1 t2 : list (event F))
    (resp : CreateEmbeddingResponse) (item : Embedding)
    (rest : list Embedding) (collection : Collection)
    (docs_meta : list (gmap string string))
    (others : list (list (gmap string string)))
    (docs : list (string * string))
    (completion : ChatCompletion) (choice : Choice) (more : list Choice)
    (response_text : string) :
  prompt ≠ "" →
  make_encoder env = Returned enc →
  with_retry float elapse refuses
    {| target := Embeddings;
       run := embeddings_create env prompt "text-embedding-3-small" |}
    10 w
  = Some (Returned (Some resp), w1, t1) →
  data resp = item :: rest →
  get_or_create_collection env "diary-rag-experiment" w1
  = (Returned collection, w2) →
  query collection [embedding item] 40 w2
  = (Returned {| metadatas := Some (docs_meta :: others) |}, w3) →
  docs_meta ≠ [] →
  Forall2 (λ m doc, m !! "date" = Some doc.1 ∧ m !! "content" = Some doc.2)
    docs_meta docs →
  with_retry float elapse refuses
    {| target := ChatCompletions;
       run := chat_completions_create env MODEL
         [ {| role := "system";
              content := system_prompt_of (today env w3) |};
           {| role := "user";
              content := "Here are relevant diary entries:" +:+ LF
                         +:+ truncate_documents docs enc 396000
                         +:+ LF +:+ LF +:+ "User query: " +:+ prompt |} ] |}
    10 w3
  = Some (Returned (Some completion), w4, t2) →
  choices completion = choice :: more →
  reply_content (choice_message choice) = Some response_text →
  mainroute float elapse refuses env (Some prompt) w
  = Some (Returned (response_text, 200), w4,
          t1 ++ [Invoke VectorStore None; Invoke VectorStore None] ++ t2).
Proof.
  intros Hprompt Henc Hembed Hdata Hcoll Hquery Hsome Hdocs Hchat
    Hchoices Hreply.
  apply (mainroute_of_answer float elapse refuses env prompt w w4
           (Returned (response_text, 200)) _ Hprompt).
  erewrite answer_with_documents by eassumption.
  unfold after, mbind, M_bind, bind, now.
  rewrite (docs_of_complete (F:=F) (W:=W) docs_meta docs Hdocs).
  change (TPM_BUDGET - 4000) with 396000.
  rewrite Hchat. cbn [attribute_of ret]. rewrite Hchoices.
  cbn [first_item ret]. rewrite Hreply. cbn [ret app].
  rewrite app_nil_r, <- app_assoc. reflexivity.
Qed.

Lemma mainroute_answers_from_documents_witness :
  mainroute float_digits elapse_none refuses_negative diary_env
    (Some "What did I do on my birthday?") 0%nat
  = Some (Returned
            ("Here are relevant diary entries:" +:+ LF
             +:+ "2025-03-01: Cake with Ana." +:+ LF
             +:+ "2025-03-02: Rain." +:+ LF
             +:+ "2024-03-01: Hiking." +:+ LF +:+ LF
             +:+ "User query: What did I do on my birthday?",
             200),
          4%nat,
          [Invoke Embeddings None]
          ++ [Invoke VectorStore None; Invoke VectorStore None]
          ++ [Invoke ChatCompletions None]).
Proof.
  apply (mainroute_answers_from_documents float_digits elapse_none refuses_negative diary_env
           "What did I do on my birthday?" char_enc
           0%nat 1%nat 2%nat 3%nat 4%nat
           [Invoke Embeddings None] [Invoke ChatCompletions None]
           {| data := [ {| embedding := [1%Q; 0%Q] |} ] |}
           {| embedding := [1%Q; 0%Q] |} [] diary_collection diary []
           [("2025-03-01", "Cake with Ana."); ("2025-03-02", "Rain.");
            ("2024-03-01", "Hiking.")]
           (reply ("Here are relevant diary entries:" +:+ LF
             +:+ "2025-03-01: Cake with Ana." +:+ LF
             +:+ "2025-03-02: Rain." +:+ LF
             +:+ "2024-03-01: Hiking." +:+ LF +:+ LF
             +:+ "User query: What did I do on my birthday?"))
           {| choice_message :=
                {| reply_content :=
                     Some ("Here are relevant diary entries:" +:+ LF
             +:+ "2025-03-01: Cake with Ana." +:+ LF
             +:+ "2025-03-02: Rain." +:+ LF
             +:+ "2024-03-01: Hiking." +:+ LF +:+ LF
             +:+ "User query: What did I do on my birthday?") |} |} []).
  - discriminate.
  - reflexivity.
  - reflexivity.
  - reflexivity.
  - reflexivity.
  - reflexivity.
  - discriminate.
  - repeat constructor.
  - vm_compute. reflexivity.
  - reflexivity.
  - reflexivity.
Defined.


(** ** The relay *)

Module RelayFacts.
Import Str Relay RelayExamples.

(** *** String methods *)

Lemma append_cons (c : Ascii.ascii) (a b : string) :
  String c a +:+ b = String c (a +:+ b).
Proof. reflexivity. Qed.

Lemma append_nil (b : string) : "" +:+ b = b.
Proof. reflexivity. Qed.

Lemma lstrip_blank (ws s : string) :
  blank ws = true → lstrip (ws +:+ s) = lstrip s.
Proof.
  induction ws as [|c ws IH]; [reflexivity|].
  simpl. intros Hblank. apply andb_true_iff in Hblank as [Hc Hws].
  rewrite Hc. apply IH, Hws.
Qed.

Lemma lstrip_head (c : Ascii.ascii) (s : string) :
  isspace c = false → lstrip (String c s) = String c s.
Proof. intros Hc. simpl. rewrite Hc. reflexivity. Qed.

(** [lstrip] cuts a blank prefix and leaves a string that is empty or
    starts with a character that is not white space. *)
Lemma lstrip_spec (s : string) :
  ∃ ws, s = ws +:+ lstrip s ∧ blank ws = true
        ∧ match lstrip s with
          | EmptyString => True
          | String c _ => isspace c = false
          end.
Proof.
  induction s as [|c s (ws & Heq & Hws & Hhead)].
  - exists "". simpl. auto.
  - simpl. destruct (isspace c) eqn:Hc.
    + exists (String c ws).
      change (String c ws +:+ lstrip s) with (String c (ws +:+ lstrip s)).
      simpl. rewrite Hc, Hws.
      split; [f_equal; exact Heq | auto].
    + exists "". simpl. auto.
Qed.

(** [word] cuts at the first white space. *)
Lemma word_app (w ws rest : string) :
  solid w = true → blank ws = true → ws ≠ "" →
  word (w +:+ ws +:+ rest) = (w, ws +:+ rest).
Proof.
  intros Hw Hws Hne.
  induction w as [|c w IH].
  - destruct ws as [|c ws]; [congruence|].
    simpl in *. apply andb_true_iff in Hws as [-> _]. reflexivity.
  - simpl in *. apply andb_true_iff in Hw as [Hc Hw].
    apply negb_true_iff in Hc. rewrite Hc, (IH Hw). reflexivity.
Qed.

Lemma word_all (w : string) : solid w = true → word w = (w, "").
Proof.
  induction w as [|c w IH]; [reflexivity|].
  simpl. intros Hw. apply andb_true_iff in Hw as [Hc Hw].
  apply negb_true_iff in Hc. rewrite Hc, (IH Hw). reflexivity.
Qed.

Lemma lstrip_blank_all (ws : string) : blank ws = true → lstrip ws = "".
Proof.
  induction ws as [|c ws IH]; [reflexivity|].
  simpl. intros H. apply andb_true_iff in H as [-> H]. auto.
Qed.

Lemma append_empty_r (s : string) : s +:+ "" = s.
Proof.
  induction s as [|c s IH]; [reflexivity|].
  rewrite append_cons, IH. reflexivity.
Qed.

Lemma append_assoc (a b c : string) : (a +:+ b) +:+ c = a +:+ (b +:+ c).
Proof.
  induction a as [|x a IH]; [reflexivity|].
  rewrite !append_cons, IH. reflexivity.
Qed.

(** X13: [split(maxsplit=1)] on a command line.  For a first word [w] without
    white space: followed by white space only, the line has one part; followed
    by white space and then a text that starts with a visible character, the
    second part is that text as it stands, inner and trailing white space
    included. *)
Theorem split_once_command (w ws : string) :
  solid w = true → w ≠ "" → blank ws = true →
  split_once (w +:+ ws) = [w]
  ∧ (ws ≠ "" →
     ∀ (c : Ascii.ascii) (body : string),
       isspace c = false →
       split_once (w +:+ ws +:+ String c body) = [w; String c body]).
Proof.
  intros Hw Hne Hws.
  destruct w as [|c0 w]; [congruence|].
  assert (Hc0 : isspace c0 = false).
  { simpl in Hw. apply andb_true_iff in Hw as [Hc0 _].
    apply negb_true_iff, Hc0. }
  split.
  - unfold split_once. rewrite append_cons, (lstrip_head _ _ Hc0).
    rewrite <- append_cons.
    destruct ws as [|c ws].
    + rewrite append_empty_r, (word_all _ Hw). reflexivity.
    + rewrite <- (append_empty_r (String c ws)) at 1.
      rewrite (word_app _ _ "" Hw Hws) by discriminate.
      rewrite append_empty_r, (lstrip_blank_all _ Hws). reflexivity.
  - intros Hwsne c body Hc.
    unfold split_once. rewrite append_cons, (lstrip_head _ _ Hc0).
    rewrite <- append_cons.
    rewrite (word_app _ _ _ Hw Hws Hwsne).
    rewrite (lstrip_blank _ _ Hws), (lstrip_head _ _ Hc). reflexivity.
Qed.

Lemma split_once_command_witness :
  split_once ("$prompt" +:+ "  ") = ["$prompt"]
  ∧ split_once ("$prompt" +:+ "  " +:+ "what's  up ")
    = ["$prompt"; "what's  up "].
Proof.
  destruct (split_once_command "$prompt" "  " eq_refl ltac:(discriminate)
              eq_refl) as [Hone Htwo].
  split; [exact Hone|].
  apply (Htwo ltac:(discriminate) (Ascii.ascii_of_nat 119) "hat's  up "
           eq_refl).
Defined.

(** The second part of a split, when there is one, is not empty and does
    not start with white space. *)
Lemma split_once_second (s p : string) :
  split_once s !! 1%nat = Some p → p ≠ "" ∧ lstrip p = p.
Proof.
  unfold split_once.
  destruct (lstrip s) as [|c s1]; [discriminate|].
  destruct (word (String c s1)) as [w rest].
  destruct (lstrip_spec rest) as (ws & _ & _ & Hhead).
  destruct (lstrip rest) as [|c' tail]; [discriminate|].
  intros [= <-]. split; [discriminate|].
  apply lstrip_head, Hhead.
Qed.

(** [lower] moves no white space, so it commutes with the strips. *)
Lemma isspace_lower_char (c : Ascii.ascii) :
  isspace (lower_char c) = isspace c.
Proof. destruct c as [[] [] [] [] [] [] [] []]; vm_compute; reflexivity. Qed.

Lemma lower_char_y (c : Ascii.ascii) :
  String (lower_char c) "" = "y" ↔ String c "" = "y" ∨ String c "" = "Y".
Proof.
  destruct c as [[] [] [] [] [] [] [] []]; vm_compute;
    split; intros H; try discriminate H; auto;
    destruct H as [H|H]; discriminate H.
Qed.

Lemma lstrip_lower (s : string) : lstrip (lower s) = lower (lstrip s).
Proof.
  induction s as [|c s IH]; [reflexivity|].
  cbn [lower lstrip]. rewrite isspace_lower_char.
  destruct (isspace c); [exact IH | reflexivity].
Qed.

Lemma rstrip_lower (s : string) : rstrip (lower s) = lower (rstrip s).
Proof.
  induction s as [|c s IH]; [reflexivity|].
  cbn [lower rstrip]. rewrite IH, isspace_lower_char.
  destruct (rstrip s) as [|c' r]; cbn [lower];
    [destruct (isspace c)|]; reflexivity.
Qed.

Lemma rstrip_blank (s : string) : rstrip s = "" ↔ blank s = true.
Proof.
  induction s as [|c s IH]; [split; reflexivity|].
  cbn [rstrip blank]. destruct (rstrip s) as [|c' r].
  - destruct (isspace c); split; intros H; try discriminate H.
    + apply IH. reflexivity.
    + reflexivity.
  - split; [discriminate|].
    intros H. apply andb_true_iff in H as [_ H].
    apply IH in H. discriminate H.
Qed.

(** What [strip] leaves is a single visible character exactly when the
    string is that character between two blank stretches. *)
Lemma strip_single (s : string) (c : Ascii.ascii) :
  isspace c = false →
  strip s = String c ""
  ↔ ∃ l r, s = l +:+ String c r ∧ blank l = true ∧ blank r = true.
Proof.
  intros Hc. unfold strip. split.
  - intros Hstrip.
    destruct (lstrip_spec s) as (ws & Heq & Hws & Hhead).
    destruct (lstrip s) as [|c1 s1]; [discriminate Hstrip|].
    cbn [rstrip] in Hstrip.
    destruct (rstrip s1) as [|c' r] eqn:Hr.
    + rewrite Hhead in Hstrip. injection Hstrip as ->.
      exists ws, s1. split; [exact Heq|]. split; [exact Hws|].
      apply rstrip_blank, Hr.
    + discriminate Hstrip.
  - intros (l & r & -> & Hl & Hr).
    rewrite (lstrip_blank _ _ Hl), (lstrip_head _ _ Hc).
    cbn [rstrip]. apply rstrip_blank in Hr. rewrite Hr, Hc. reflexivity.
Qed.

(** X20: the operator's answer counts as an acceptance exactly when it is
    the single letter [y] or [Y], possibly with white space before and after
    it. *)
Theorem accepts_exactly_y (answer : string) :
  accepts answer = true
  ↔ ∃ l c r,
      answer = l +:+ String c r
      ∧ blank l = true ∧ blank r = true
      ∧ (String c "" = "y" ∨ String c "" = "Y").
Proof.
  unfold accepts. rewrite String.eqb_eq.
  unfold strip. rewrite lstrip_lower, rstrip_lower. fold (strip answer).
  split.
  - intros Hlow.
    destruct (strip answer) as [|c [|c' s']] eqn:Hstrip;
      try discriminate Hlow.
    cbn [lower] in Hlow. apply lower_char_y in Hlow.
    assert (Hc : isspace c = false)
      by (destruct Hlow as [[= ->]|[= ->]]; reflexivity).
    apply (strip_single _ _ Hc) in Hstrip as (l & r & -> & Hl & Hr).
    exists l, c, r. auto.
  - intros (l & c & r & -> & Hl & Hr & Hy).
    assert (Hc : isspace c = false)
      by (destruct Hy as [[= ->]|[= ->]]; reflexivity).
    rewrite (proj2 (strip_single _ c Hc)) by eauto.
    cbn [lower]. apply lower_char_y, Hy.
Qed.

(** *** The handler *)

Abbreviation usage := "Please provide a prompt after $prompt.".
Abbreviation cancelled := "Message sending was cancelled.".
Abbreviation question := "Send this message? (y/n): ".
Abbreviation url := "http://localhost:5000/".

Section HandlerFacts.
Context {W : Type}.
Variable env : Env W.
Variable client_user : Z.

(** The handler on a command from the allowed guild. *)
Lemma on_message_command (message : Message) :
  guild message = Some ALLOWED_GUILD_ID →
  author message ≠ client_user →
  startswith (lower (content message)) "$prompt" = true →
  on_message env client_user message
  = match split_once (content message) with
    | _ :: prompt :: _ => try_except (relay env prompt) (report env)
    | _ => channel_send env usage
    end.
Proof.
  intros Hguild Hauthor Hcmd. unfold on_message.
  rewrite Hguild, Z.eqb_refl. cbn [negb].
  destruct (Z.eqb_spec (author message) client_user); [congruence|].
  rewrite Hcmd. reflexivity.
Qed.

(** One [confirm_send], in full. *)
Lemma confirm_send_run (message_preview : string) (w : W) :
  confirm_send env message_preview w
  = (match (input env question w).1 with
     | Done a => Done (accepts a)
     | Failed e => Failed e
     end,
     (input env question w).2,
     dialogue message_preview
       match (input env question w).1 with
       | Done a => Some a
       | Failed _ => None
       end).
Proof.
  unfold confirm_send, bind, print, ask, ret, dialogue.
  destruct (input env _ w) as [[a|e] w1]; reflexivity.
Qed.

Lemma gated_app (t1 t2 : list event) :
  gated t1 → gated t2 → gated (t1 ++ t2).
Proof.
  intros H1 H2 i s Hi.
  destruct (decide (i < length t1)%nat) as [Hlt|Hge].
  - rewrite lookup_app_l in Hi by exact Hlt.
    destruct (H1 i s Hi)
      as [Hs|[Hs|(pre & post & a & -> & Hlen & Hacc)]]; auto.
    right. right. exists pre, (post ++ t2), a.
    split; [|auto].
    rewrite <- !app_assoc. reflexivity.
  - rewrite lookup_app_r in Hi by lia.
    destruct (H2 _ s Hi)
      as [Hs|[Hs|(pre & post & a & -> & Hlen & Hacc)]]; auto.
    right. right. exists (t1 ++ pre), post, a.
    split; [rewrite <- app_assoc; reflexivity|].
    split; [rewrite length_app; lia | exact Hacc].
Qed.

Lemma gated_silent (t : list event) : (∀ s, Send s ∉ t) → gated t.
Proof.
  intros Hno i s Hi. destruct (Hno s).
  eapply list_elem_of_lookup_2, Hi.
Qed.

Lemma gated_notice (s : string) :
  s = usage ∨ s = cancelled → gated [Send s].
Proof.
  intros Hs [|i] s' Hi; [|destruct i; discriminate Hi].
  injection Hi as <-. destruct Hs; auto.
Qed.

Lemma gated_accepted (s a : string) :
  accepts a = true → gated (dialogue s (Some a) ++ [Send s]).
Proof.
  intros Hacc i s' Hi.
  do 5 (destruct i as [|i]; [discriminate Hi|]).
  destruct i as [|i]; [|destruct i; discriminate Hi].
  injection Hi as <-.
  right. right. exists [], [], a. auto.
Qed.

Lemma dialogue_no_send (s : string) (a : option string) (s' : string) :
  Send s' ∉ dialogue s a.
Proof.
  unfold dialogue. rewrite !elem_of_cons.
  intros H. repeat (destruct H as [H|H]; [discriminate H|]). inversion H.
Qed.

Lemma dialogue_quiet (s : string) (a : option string) : quiet (dialogue s a).
Proof.
  intros u q. unfold dialogue. rewrite !elem_of_cons.
  intros H. repeat (destruct H as [H|H]; [discriminate H|]). inversion H.
Qed.

Lemma quiet_app (t1 t2 : list event) : quiet t1 → quiet t2 → quiet (t1 ++ t2).
Proof.
  intros H1 H2 u q Hin. apply elem_of_app in Hin as [Hin|Hin];
    [eapply H1, Hin | eapply H2, Hin].
Qed.

Lemma quiet_send (s : string) : quiet [Send s].
Proof.
  intros u q Hin. apply list_elem_of_singleton in Hin. discriminate Hin.
Qed.

Lemma quiet_nil : quiet [].
Proof. intros u q Hin. inversion Hin. Qed.

Lemma gated_nil : gated [].
Proof. intros i s Hi. discriminate Hi. Qed.

(** Asking and then posting [msg] or doing [fallback]: the trace is gated
    and makes no request as soon as that of [fallback] is. *)
Lemma confirm_then_send (msg : string) (fallback : M W unit) :
  (∀ w, gated (fallback w).2 ∧ quiet (fallback w).2) →
  ∀ w,
    let run :=
      bind (confirm_send env msg)
        (λ ok, if ok then channel_send env msg else fallback) w in
    gated run.2 ∧ quiet run.2.
Proof.
  intros Hfall w. cbv zeta. unfold bind. rewrite confirm_send_run.
  destruct (input env question w) as [[a|e] w1]; cbn [fst snd].
  - destruct (accepts a) eqn:Hacc.
    + unfold channel_send. destruct (send env msg w1) as [o2 w2].
      cbn [snd]. split; [apply gated_accepted, Hacc|].
      apply quiet_app; [apply dialogue_quiet | apply quiet_send].
    + destruct (Hfall w1) as [Hg Hq].
      destruct (fallback w1) as [[o2 w2] t2]. cbn [snd] in *.
      split; [|apply quiet_app; [apply dialogue_quiet | exact Hq]].
      apply gated_app; [|exact Hg].
      apply gated_silent. intros s. apply dialogue_no_send.
  - split; [|apply dialogue_quiet].
    apply gated_silent. intros s. apply dialogue_no_send.
Qed.

Lemma report_run (e : exn) (w : W) :
  gated (report env e w).2 ∧ quiet (report env e w).2.
Proof.
  apply (confirm_then_send (error_msg e) (ret tt)).
  intros w'. split; [apply gated_nil | apply quiet_nil].
Qed.

(** The [try] block with its handlers: one request, first, then only gated
    posts. *)
Lemma relay_run (prompt : string) (w : W) :
  ∃ rest,
    (try_except (relay env prompt) (report env) w).2
    = Get url prompt :: rest
    ∧ quiet rest ∧ gated (Get url prompt :: rest).
Proof.
  assert (Hget : gated [Get url prompt]).
  { apply gated_silent. intros s Hin.
    apply list_elem_of_singleton in Hin. discriminate Hin. }
  assert (Hcons : ∀ rest, gated rest → gated (Get url prompt :: rest))
    by (intros rest Hrest; apply (gated_app [_] rest Hget Hrest)).
  unfold try_except, relay, bind at 1, http_get.
  destruct (get env url prompt w) as [[response|e] w1].
  - unfold bind at 1, raise_for_status.
    destruct (raises_for_status env response).
    + cbn [raise]. destruct (report_run (HTTPStatusError response) w1)
        as [Hg Hq].
      destruct (report env (HTTPStatusError response) w1) as [[o2 w2] t2].
      cbn [snd app] in *. eauto.
    + cbn [ret].
      pose proof (confirm_then_send (text response)
                    (channel_send env cancelled)) as Hblock.
      cbv zeta in Hblock.
      destruct (Hblock ltac:(intros w'; unfold channel_send;
                             destruct (send env cancelled w') as [o3 w3];
                             cbn [snd]; split;
                             [apply gated_notice; auto | apply quiet_send])
                  w1) as [Hg Hq].
      destruct (bind (confirm_send env (text response)) _ w1)
        as [[[u|e] w2] t2]; cbn [snd app] in *.
      * eauto.
      * destruct (report_run e w2) as [Hg2 Hq2].
        destruct (report env e w2) as [[o3 w3] t3]. cbn [snd app] in *.
        exists (t2 ++ t3).
        split; [reflexivity|].
        split; [apply quiet_app; assumption|].
        apply Hcons, gated_app; assumption.
  - destruct (report_run e w1) as [Hg Hq].
    destruct (report env e w1) as [[o2 w2] t2]. cbn [snd app] in *. eauto.
Qed.
End HandlerFacts.

(** X14: a message from outside the allowed guild (or outside any guild), a
    message written by the bot itself, and a message whose lower-cased text
    does not start with [$prompt] are all ignored: nothing is requested,
    asked, printed or posted, and the world is left as it was. *)
Theorem on_message_ignored
    {W : Type} (env : Env W) (client_user : Z) (message : Message) (w : W) :
  guild message ≠ Some ALLOWED_GUILD_ID
  ∨ author message = client_user
  ∨ startswith (lower (content message)) "$prompt" = false →
  on_message env client_user message w = (Done tt, w, []).
Proof.
  intros Hignore. unfold on_message.
  destruct (guild message) as [id|]; [|reflexivity].
  destruct (Z.eqb_spec id ALLOWED_GUILD_ID) as [-> | Hne]; [|reflexivity].
  cbn [negb].
  destruct (Z.eqb_spec (author message) client_user) as [Hself|Hother];
    [reflexivity|].
  destruct Hignore as [Hg|[Ha|Hc]]; [congruence | congruence |].
  rewrite Hc. reflexivity.
Qed.

Lemma on_message_ignored_witness :
  on_message (console (Done {| status_code := 200; text := "ok" |})) 1
    {| guild := None; author := 7; content := "$prompt hello" |} ["y"]
  = (Done tt, ["y"], [])
  ∧ on_message (console (Done {| status_code := 200; text := "ok" |})) 1
      (ask_message "please $prompt hello") ["y"]
    = (Done tt, ["y"], []).
Proof.
  split.
  - apply (on_message_ignored
             (console (Done {| status_code := 200; text := "ok" |})) 1
             {| guild := None; author := 7; content := "$prompt hello" |}).
    left. discriminate.
  - apply (on_message_ignored
             (console (Done {| status_code := 200; text := "ok" |})) 1
             (ask_message "please $prompt hello")).
    right. right. reflexivity.
Defined.

(** X15: a command from the allowed guild whose text has a single part (the
    command word alone, possibly followed by white space) is answered with
    the usage notice and nothing else: no request is made and the operator
    is not asked. *)
Theorem on_message_usage
    {W : Type} (env : Env W) (client_user : Z) (message : Message) (w : W) :
  guild message = Some ALLOWED_GUILD_ID →
  author message ≠ client_user →
  startswith (lower (content message)) "$prompt" = true →
  (length (split_once (content message)) ≤ 1)%nat →
  on_message env client_user message w
  = ((send env usage w).1, (send env usage w).2, [Send usage]).
Proof.
  intros Hguild Hauthor Hcmd Hparts.
  rewrite (on_message_command env client_user message Hguild Hauthor Hcmd).
  destruct (split_once (content message)) as [|word [|prompt rest]];
    [| |simpl in Hparts; lia];
    unfold channel_send; destruct (send env usage w); reflexivity.
Qed.

Lemma on_message_usage_witness :
  on_message (console (Done {| status_code := 200; text := "ok" |})) 1
    (ask_message "$PROMPT  ") ["y"]
  = (Done tt, ["y"], [Send usage]).
Proof.
  apply (on_message_usage
           (console (Done {| status_code := 200; text := "ok" |})) 1
           (ask_message "$PROMPT  ") ["y"]).
  - reflexivity.
  - discriminate.
  - reflexivity.
  - vm_compute. lia.
Defined.

(** X16: the handler makes at most one request per message, as its first
    effect; the request goes to [http://localhost:5000/] and its prompt is
    the second part of the split text, which is never empty and never
    starts with white space. *)
Theorem on_message_single_request
    {W : Type} (env : Env W) (client_user : Z) (message : Message) (w : W)
    (u q : string) :
  Get u q ∈ (on_message env client_user message w).2 →
  u = url
  ∧ split_once (content message) !! 1%nat = Some q
  ∧ q ≠ "" ∧ lstrip q = q
  ∧ ∃ rest,
      (on_message env client_user message w).2 = Get u q :: rest
      ∧ quiet rest.
Proof.
  unfold on_message.
  destruct (match guild message with
            | Some id => negb (id =? ALLOWED_GUILD_ID)
            | None => true
            end); [intros Hin; inversion Hin|].
  destruct (author message =? client_user); [intros Hin; inversion Hin|].
  destruct (startswith (lower (content message)) "$prompt");
    [|intros Hin; inversion Hin].
  destruct (split_once (content message)) as [|word [|prompt rest]] eqn:Hparts.
  - unfold channel_send. destruct (send env _ w). cbn [snd].
    intros Hin. apply list_elem_of_singleton in Hin. discriminate Hin.
  - unfold channel_send. destruct (send env _ w). cbn [snd].
    intros Hin. apply list_elem_of_singleton in Hin. discriminate Hin.
  - destruct (relay_run env prompt w) as (tail & -> & Hquiet & _).
    intros Hin. apply elem_of_cons in Hin as [[= -> ->] | Hin];
      [|destruct (Hquiet _ _ Hin)].
    assert (Hsecond : split_once (content message) !! 1%nat = Some prompt)
      by (rewrite Hparts; reflexivity).
    destruct (split_once_second _ _ Hsecond) as [Hne Hstrip].
    rewrite Hparts in Hsecond. eauto 10.
Qed.

Lemma on_message_single_request_witness :
  split_once "$prompt   how  was it? " !! 1%nat = Some "how  was it? ".
Proof.
  apply (on_message_single_request
           (console (Done {| status_code := 200; text := "ok" |})) 1
           (ask_message "$prompt   how  was it? ") ["y"]
           url "how  was it? ").
  vm_compute. apply list_elem_of_here.
Defined.

(** X17: nothing reaches the channel unseen.  Whatever the server, the
    operator and Discord do, every message the handler posts is either one
    of the two fixed notices or the text whose preview was just shown to the
    operator, whose answer, given right before the post, was an acceptance. *)
Theorem on_message_gated
    {W : Type} (env : Env W) (client_user : Z) (message : Message) (w : W) :
  gated (on_message env client_user message w).2.
Proof.
  unfold on_message.
  destruct (match guild message with
            | Some id => negb (id =? ALLOWED_GUILD_ID)
            | None => true
            end); [apply gated_nil|].
  destruct (author message =? client_user); [apply gated_nil|].
  destruct (startswith (lower (content message)) "$prompt");
    [|apply gated_nil].
  destruct (split_once (content message)) as [|word [|prompt rest]].
  - unfold channel_send. destruct (send env _ w). apply gated_notice. auto.
  - unfold channel_send. destruct (send env _ w). apply gated_notice. auto.
  - destruct (relay_run env prompt w) as (tail & -> & _ & Hgated).
    exact Hgated.
Qed.

(** X18: when the server answers and [raise_for_status] lets the response
    through, the operator is shown the text of the response and asked once;
    the text is posted if the answer is an acceptance, and otherwise the
    channel is told that sending was cancelled. *)
Theorem on_message_relays_answer
    {W : Type} (env : Env W) (client_user : Z) (message : Message)
    (w w1 w2 w3 : W) (word prompt answer : string) (rest : list string)
    (response : HttpResponse) :
  guild message = Some ALLOWED_GUILD_ID →
  author message ≠ client_user →
  startswith (lower (content message)) "$prompt" = true →
  split_once (content message) = word :: prompt :: rest →
  get env url prompt w = (Done response, w1) →
  raises_for_status env response = false →
  input env question w1 = (Done answer, w2) →
  send env (if accepts answer then text response else cancelled) w2
  = (Done tt, w3) →
  on_message env client_user message w
  = (Done tt, w3,
     [Get url prompt]
     ++ dialogue (text response) (Some answer)
     ++ [Send (if accepts answer then text response else cancelled)]).
Proof.
  intros Hguild Hauthor Hcmd Hparts Hget Hstatus Hinput Hsend.
  rewrite (on_message_command env client_user message Hguild Hauthor Hcmd).
  rewrite Hparts.
  unfold try_except, relay, bind at 1, http_get. rewrite Hget.
  unfold bind at 1, raise_for_status. rewrite Hstatus. cbn [ret].
  unfold bind. rewrite confirm_send_run, Hinput. cbn [fst snd].
  unfold channel_send.
  destruct (accepts answer); rewrite Hsend; reflexivity.
Qed.

Lemma on_message_relays_answer_witness :
  on_message (console (Done {| status_code := 200; text := "It was fine." |}))
    1 (ask_message "$prompt how was it?") [" Y "; "n"]
  = (Done tt, ["n"],
     [Get url "how was it?"]
     ++ dialogue "It was fine." (Some " Y ")
     ++ [Send "It was fine."]).
Proof.
  apply (on_message_relays_answer
           (console (Done {| status_code := 200; text := "It was fine." |}))
           1 (ask_message "$prompt how was it?")
           [" Y "; "n"] [" Y "; "n"] ["n"] ["n"]
           "$prompt" "how was it?" " Y " []
           {| status_code := 200; text := "It was fine." |}).
  - reflexivity.
  - discriminate.
  - reflexivity.
  - reflexivity.
  - reflexivity.
  - reflexivity.
  - reflexivity.
  - reflexivity.
Defined.

(** X19: when the request fails, by an exception of [get] or by
    [raise_for_status], the operator is shown the text for that class of
    failure and asked once; the text is posted if the answer is an
    acceptance, and otherwise nothing at all is posted to the channel. *)
Theorem on_message_reports_failure
    {W : Type} (env : Env W) (client_user : Z) (message : Message)
    (w w1 w2 w3 : W) (word prompt answer : string) (rest : list string)
    (e : exn) :
  guild message = Some ALLOWED_GUILD_ID →
  author message ≠ client_user →
  startswith (lower (content message)) "$prompt" = true →
  split_once (content message) = word :: prompt :: rest →
  get env url prompt w = (Failed e, w1)
  ∨ (∃ response,
       get env url prompt w = (Done response, w1)
       ∧ raises_for_status env response = true
       ∧ e = HTTPStatusError response) →
  input env question w1 = (Done answer, w2) →
  (if accepts answer then send env (error_msg e) w2 = (Done tt, w3)
   else w3 = w2) →
  on_message env client_user message w
  = (Done tt, w3,
     [Get url prompt]
     ++ dialogue (error_msg e) (Some answer)
     ++ (if accepts answer then [Send (error_msg e)] else [])).
Proof.
  intros Hguild Hauthor Hcmd Hparts Hfail Hinput Hsend.
  rewrite (on_message_command env client_user message Hguild Hauthor Hcmd).
  rewrite Hparts.
  assert (Hreport :
    report env e w1
    = (Done tt, w3,
       dialogue (error_msg e) (Some answer)
       ++ (if accepts answer then [Send (error_msg e)] else []))).
  { unfold report, bind. rewrite confirm_send_run, Hinput. cbn [fst snd].
    unfold channel_send.
    destruct (accepts answer); [rewrite Hsend|subst w3]; reflexivity. }
  unfold try_except, relay, bind at 1, http_get.
  destruct Hfail as [Hget | (response & Hget & Hstatus & ->)]; rewrite Hget.
  - rewrite Hreport. reflexivity.
  - unfold bind at 1, raise_for_status. rewrite Hstatus. cbn [raise].
    rewrite Hreport. reflexivity.
Qed.

Lemma on_message_reports_failure_witness :
  on_message
    (console (Done {| status_code := 500;
                      text := "An error occurred: Rate limit reached" |}))
    1 (ask_message "$prompt how was it?") ["n"]
  = (Done tt, [],
     [Get url "how was it?"]
     ++ dialogue "Server returned error 500: An error occurred: Rate limit reached"
          (Some "n")
     ++ [])
  ∧ on_message (console (Failed (ConnectError "All connection attempts failed")))
      1 (ask_message "$prompt how was it?") ["y"]
    = (Done tt, [],
       [Get url "how was it?"]
       ++ dialogue
            "Could not connect to the server. Please make sure the server is running on http://localhost:5000"
            (Some "y")
       ++ [Send "Could not connect to the server. Please make sure the server is running on http://localhost:5000"]).
Proof.
  split.
  - apply (on_message_reports_failure
             (console (Done {| status_code := 500;
                               text := "An error occurred: Rate limit reached" |}))
             1 (ask_message "$prompt how was it?")
             ["n"] ["n"] [] [] "$prompt" "how was it?" "n" []
             (HTTPStatusError
                {| status_code := 500;
                   text := "An error occurred: Rate limit reached" |})).
    + reflexivity.
    + discriminate.
    + reflexivity.
    + reflexivity.
    + right. eexists. split; [reflexivity|]. split; reflexivity.
    + reflexivity.
    + reflexivity.
  - apply (on_message_reports_failure
             (console (Failed (ConnectError "All connection attempts failed")))
             1 (ask_message "$prompt how was it?")
             ["y"] ["y"] [] [] "$prompt" "how was it?" "y" []
             (ConnectError "All connection attempts failed")).
    + reflexivity.
    + discriminate.
    + reflexivity.
    + reflexivity.
    + left. reflexivity.
    + reflexivity.
    + reflexivity.
Defined.
End RelayFacts.
